(** * veux: configuration layering and visibility directives of [render]

    A shallow embedding of [veux/__init__.py] ([serve], [_create_canvas],
    [render]) together with the two helpers it imports from modules that are
    not part of the excerpt ([apply_config] from [veux.config] and
    [sketch_show] from [veux.parser]); these two are modelled from the
    written specification and are marked as such.

    Python values are a single inductive universe; dictionaries with string
    keys are [gmap string value]; exceptions are an error type and functions
    that may raise return [exn + A]. *)

From Stdlib Require Import ZArith QArith Ascii.
From stdpp Require Import gmap strings list fin_maps.

Local Set Warnings "-register-all".

(** ** Python values *)

(** Finite floats are carried as the rational they denote; no arithmetic is
    ever performed on them here, they are only moved between dictionaries. *)
Inductive value :=
| VNone
| VBool (b : bool)
| VInt (z : Z)
| VFloat (q : Q)
| VStr (s : string)
| VPath (p : string)
| VList (xs : list value)
| VTuple (xs : list value)
| VDict (m : gmap string value)
| VObj (attrs : gmap string value) (truth : bool).

(** An object is its attribute table; a method without arguments is stored
    as the value its call returns.  [truth] is the result of [bool(o)]. *)

Inductive exn :=
| RenderError (msg : string)
| ValueError (msg : string)
| KeyError (key : string)
| TypeError (msg : string)
| NameError (name : string)
| MalformedVisibilityKey (key : string).

Definition is_dict (v : value) : bool :=
  match v with VDict _ => true | _ => false end.

Definition is_str (v : value) : bool :=
  match v with VStr _ => true | _ => false end.

(** [hasattr(v, name)]: only objects carry the attributes probed by this
    module ([canvas], [to_glb], [to_html], [show], [asdict], [read]). *)
Definition getattr (v : value) (name : string) : option value :=
  match v with
  | VObj attrs _ => attrs !! name
  | _ => None
  end.

Definition hasattr (v : value) (name : string) : bool :=
  bool_decide (is_Some (getattr v name)).

(** Python truth value, as used by [canvas or config[...]]. *)
Definition truthy (v : value) : bool :=
  match v with
  | VNone => false
  | VBool b => b
  | VInt z => negb (Z.eqb z 0)
  | VFloat q => negb (Qeq_bool q 0)
  | VStr s => negb (String.eqb s "")
  | VPath _ => true
  | VList xs | VTuple xs => match xs with [] => false | _ => true end
  | VDict m => negb (bool_decide (m = ∅))
  | VObj _ t => t
  end.

(** Nesting depth of dictionaries; the measure for induction on settings. *)
Fixpoint depth (v : value) : nat :=
  match v with
  | VDict m => S (map_fold (fun _ x acc => Nat.max (depth x) acc) 0%nat m)
  | _ => 0%nat
  end.

(** ** ConfigMerger ([veux.config.apply_config]) *)

(** Modelled from the spec: [apply_config] of [veux/config.py], which the
    excerpt only imports.  Specification 4.1: for each key in the source, if
    both destination and source hold a nested section at that key, merge
    recursively; otherwise the source value replaces the destination's value
    at that key, whatever the types; keys present only in the destination
    are retained.  [merge_value vs od] is the value stored at one key, given
    the source value [vs] and what the destination holds there. *)
Fixpoint merge_value (vs : value) (od : option value) {struct vs} : value :=
  match vs with
  | VDict ms =>
      match od with
      | Some (VDict md) =>
          VDict (map_fold (fun k v acc => <[k := merge_value v (acc !! k)]> acc) md ms)
      | _ => VDict ms
      end
  | _ => vs
  end.

(** Modelled from the spec: [apply_config(conf, opts)] merges the source
    [conf] into the destination [opts] (argument order of the call sites in
    [render]); the merged destination is returned. *)
Definition apply_config (conf opts : gmap string value) : gmap string value :=
  map_fold (fun k v acc => <[k := merge_value v (acc !! k)]> acc) opts conf.

(** The same merge, written key-wise as the specification's sentences read:
    it is compared with [apply_config] below. *)
Definition merge_at (od os : option value) : option value :=
  match os with
  | None => od
  | Some vs => Some (merge_value vs od)
  end.

(** ** VisibilityResolver ([veux.parser.sketch_show]) *)

Inductive action := Show | Hide.

(** Tri-state visibility flag of the specification's data model. *)
Inductive flag := Shown | Hidden | Unset.

Record VisibilityKey := { sketch : string; attribute : option string }.

(** Cut a key at its first colon: the text before it and, when there is a
    colon, the text after it. *)
Fixpoint split_colon (s : string) : string * option string :=
  match s with
  | EmptyString => (EmptyString, None)
  | String c r =>
      if Ascii.eqb c ":"%char then (EmptyString, Some r)
      else let '(a, b) := split_colon r in (String c a, b)
  end.

(** Modelled from the spec: step 1 of the resolver, [<sketch>:<attribute-path>]
    or a bare [<sketch>]; a key without a sketch component does not parse. *)
Definition parse_key (key : string) : option VisibilityKey :=
  let '(sk, attr) := split_colon key in
  if String.eqb sk "" then None
  else Some {| sketch := sk; attribute := attr |}.

Definition flag_of_action (a : action) : flag :=
  match a with Show => Shown | Hide => Hidden end.

Definition complement (a : action) : flag :=
  match a with Show => Hidden | Hide => Shown end.

(** Modelled from the spec: a flag is stored in the artist section under the
    text of its key, as [True] (shown), [False] (hidden) or [None] (unset). *)
Definition flag_value (f : flag) : value :=
  match f with Shown => VBool true | Hidden => VBool false | Unset => VNone end.

Definition value_flag (v : value) : option flag :=
  match v with
  | VBool true => Some Shown
  | VBool false => Some Hidden
  | VNone => Some Unset
  | _ => None
  end.

Definition get_flag (settings : gmap string value) (key : string) : option flag :=
  settings !! key ≫= value_flag.

(** Modelled from the spec: the keys step 3 enumerates for a directive on
    [key] of sketch [sk] are every other key of the section that shares the
    sketch and currently holds a state, explicit or default. *)
Definition is_sibling (sk key k : string) (v : value) : bool :=
  negb (String.eqb k key)
  && match parse_key k with
     | Some vk => String.eqb (sketch vk) sk
     | None => false
     end
  && bool_decide (is_Some (value_flag v)).

Definition exclude (sk key : string) (what : action) (preserve : gset string)
    (k : string) (v : value) : value :=
  if is_sibling sk key k v && negb (bool_decide (k ∈ preserve))
  then flag_value (complement what)
  else v.

(** Modelled from the spec: [sketch_show(config, key, what, exclusive,
    preserve)] of [veux/parser.py], which the excerpt only imports.
    Specification 4.2: parse the key (an unparsable key is an error); set the
    flag of the exact key; when exclusive, set every sibling that is not in
    [preserve] to the complement and then add the key to [preserve]; a
    non-exclusive call stops after setting the flag.  The updated section and
    the updated preserve set are returned. *)
Definition sketch_show (config : gmap string value) (key : string)
    (what : action) (exclusive : bool) (preserve : gset string)
    : exn + (gmap string value * gset string) :=
  match parse_key key with
  | None => inl (MalformedVisibilityKey key)
  | Some vk =>
      let config := <[key := flag_value (flag_of_action what)]> config in
      if exclusive then
        inr (map_imap (fun k v => Some (exclude (sketch vk) key what preserve k v)) config,
             preserve ∪ {[ key ]})
      else inr (config, preserve)
  end.

(** A key has a state, explicit or default, when the section holds a flag
    under it. *)
Definition has_state (settings : gmap string value) (key : string) : Prop :=
  is_Some (get_flag settings key).

(** ** Effects of the orchestrating module *)

Inductive canvas :=
| MatplotlibCanvas (config : value)
| PlotlyCanvas (config : value)
| GltfLibCanvas (config : value)
| TrimeshCanvas (config : value)
| GivenCanvas (c : value).

Inductive payload :=
| Glb (data : value) (viewer : value)
| Html (doc : value).

Record call := {
  call_key : string;
  call_what : action;
  call_exclusive : bool;
  call_preserve : option nat;
}.

Inductive event :=
| EvReadModel (source : value)
| EvNewSet (id : nat)
| EvSketchShow (c : call)
| EvPrint (section : value)
| EvCreateCanvas (c : canvas)
| EvCreateArtist (model ndf config model_config : value) (c : canvas)
| EvAddState (source scale only : value) (kwds : gmap string value)
| EvDraw
| EvServerRun (p : payload) (port : value)
| EvCanvasShow (c : value).

(** What a run can observe and change besides its arguments: the trace of
    calls made to collaborators, and the store of preserve sets ([set()]
    allocates a new cell; a set is passed around as the index of its cell). *)
Record state := {
  trace : list event;
  sets : list (gset string);
}.

Definition M (A : Type) : Type := state → state * (exn + A).

Definition ret {A} (x : A) : M A := fun st => (st, inr x).

Definition raise {A} (e : exn) : M A := fun st => (st, inl e).

Definition bind {A B} (m : M A) (k : A → M B) : M B :=
  fun st =>
    match m st with
    | (st', inr x) => k x st'
    | (st', inl e) => (st', inl e)
    end.

Definition lift {A} (r : exn + A) : M A := fun st => (st, r).

Definition emit (e : event) : M unit :=
  fun st => ({| trace := trace st ++ [e]; sets := sets st |}, inr tt).

Declare Scope veux_scope.
Delimit Scope veux_scope with veux.
Notation "'let*' x := m 'in' k" := (bind m (fun x => k))
  (at level 10, x name, m at level 100, k at level 200) : veux_scope.
Notation "'do' m 'then' k" := (bind m (fun _ => k))
  (at level 10, m at level 100, k at level 200) : veux_scope.
Local Open Scope veux_scope.

(** [preserve = set()] *)
Definition new_set : M nat :=
  fun st =>
    ({| trace := trace st ++ [EvNewSet (length (sets st))];
        sets := sets st ++ [∅] |},
     inr (length (sets st))).

(** [d[k]] *)
Definition subscript (d : value) (k : string) : exn + value :=
  match d with
  | VDict m =>
      match m !! k with
      | Some v => inr v
      | None => inl (KeyError k)
      end
  | _ => inl (TypeError "object is not subscriptable")
  end.

Fixpoint for_each {A S} (f : S → A → M S) (xs : list A) (s : S) : M S :=
  match xs with
  | [] => ret s
  | x :: xs => let* s' := f s x in for_each f xs s'
  end.

(** [o.name()] for a method without arguments. *)
Definition method (o : value) (name : string) : value :=
  default VNone (getattr o name).

(** ** [serve] *)

(** The canvas [serve] works on: [thing.canvas] when an artist was passed,
    [thing] itself otherwise. *)
Definition serve_target (thing : value) : value :=
  if hasattr thing "canvas" then method thing "canvas" else thing.

Definition serve (thing viewer port : value) : M unit :=
  let canvas := serve_target thing in
  if hasattr canvas "to_glb" then
    emit (EvServerRun (Glb (method canvas "to_glb") viewer) port)
  else if hasattr canvas "to_html" then
    emit (EvServerRun (Html (method canvas "to_html")) port)
  else if hasattr canvas "show" then
    emit (EvCanvasShow canvas)
  else
    raise (ValueError "Cannot serve artist").

(** ** [_create_canvas] *)

Definition _create_canvas (name config : value) : exn + canvas :=
  let name := match name with VNone => VStr "gltf" | _ => name end in
  match name with
  | VStr s =>
      if String.eqb s "matplotlib" then inr (MatplotlibCanvas config)
      else if String.eqb s "plotly" then inr (PlotlyCanvas config)
      else if String.eqb s "gltf" then inr (GltfLibCanvas config)
      else if String.eqb s "trimesh" then inr (TrimeshCanvas config)
      else inl (ValueError ("Unknown canvas name " +:+ s))
  | _ => inr (GivenCanvas name)
  end.

(** The identifiers the chain of comparisons in [_create_canvas] accepts. *)
Definition backends : list string := ["matplotlib"; "plotly"; "gltf"; "trimesh"].

(** ** [render] *)

(** The arguments of one call [artist.add_state(source, scale=..., only=...,
    **kwds)]. *)
Record state_call := {
  state_source : value;
  state_scale : value;
  state_only : value;
  state_kwds : gmap string value;
}.

(** An artist is known by the arguments it was constructed with and by the
    states that were added to it since. *)
Record artist := {
  artist_model : value;
  artist_ndf : value;
  artist_config : value;
  artist_model_config : value;
  artist_canvas : canvas;
  artist_states : list state_call;
}.

(** [FrameArtist(model, ndf=ndf, config=config, model_config=model_config,
    canvas=canvas)], once it has returned. *)
Definition new_artist (model ndf config model_config : value) (c : canvas)
    : artist :=
  {| artist_model := model; artist_ndf := ndf; artist_config := config;
     artist_model_config := model_config; artist_canvas := c;
     artist_states := [] |}.

(** The artist after a call of [add_state] that returned. *)
Definition with_state (a : artist) (c : state_call) : artist :=
  {| artist_model := artist_model a; artist_ndf := artist_ndf a;
     artist_config := artist_config a;
     artist_model_config := artist_model_config a;
     artist_canvas := artist_canvas a;
     artist_states := artist_states a ++ [c] |}.

(** [k in container] for a string [k]: a key of a dictionary, an element of
    a list or tuple, a substring of a string.  The other values of this
    universe are not containers (objects are plain attribute tables), and
    the test raises. *)
Definition contains (container : value) (k : string) : exn + bool :=
  match container with
  | VDict m => inr (bool_decide (is_Some (m !! k)))
  | VList xs | VTuple xs =>
      inr (existsb (fun x => match x with
                             | VStr s => String.eqb s k
                             | _ => false
                             end) xs)
  | VStr s => inr (match String.index 0 k s with Some _ => true | None => false end)
  | _ => inl (TypeError "argument is not iterable")
  end.

(** What a reader returns, as a value. *)
Definition as_model (r : exn + gmap string value) : exn + value :=
  match r with
  | inl e => inl e
  | inr m => inr (VDict m)
  end.

(** A value used where a mapping is required ([**], the source of a merge). *)
Definition as_mapping (v : value) : exn + gmap string value :=
  match v with
  | VDict m => inr m
  | _ => inl (TypeError "a mapping is required")
  end.

(** [config["artist_config"]["vertical"] = vertical] *)
Definition set_vertical (config : gmap string value) (vertical : value)
    : exn + gmap string value :=
  match config !! "artist_config" with
  | None => inl (KeyError "artist_config")
  | Some (VDict section) =>
      inr (<["artist_config" := VDict (<["vertical" := vertical]> section)]> config)
  | Some _ => inl (TypeError "object does not support item assignment")
  end.

(** The conditional rebinding of [reference] to [show]. *)
Definition effective_reference (show displaced reference : option (list string))
    : option (list string) :=
  match show, reference, displaced with
  | Some _, None, None => show
  | _, _, _ => reference
  end.

(** One call [sketch_show(config["artist_config"], key, what, ...)]; the
    section is updated in place, the preserve set (when one is passed) in its
    cell. *)
Definition sketch_show_call (config : gmap string value) (key : string)
    (what : action) (exclusive : bool) (preserve : option nat)
    : M (gmap string value) :=
  let* section := lift (subscript (VDict config) "artist_config") in
  do emit (EvSketchShow {| call_key := key; call_what := what;
                           call_exclusive := exclusive;
                           call_preserve := preserve |}) then
  let* section := lift (as_mapping section) in
  fun st =>
    let held := match preserve with
                | Some i => default ∅ (sets st !! i)
                | None => ∅
                end in
    match sketch_show section key what exclusive held with
    | inl e => (st, inl e)
    | inr (section', held') =>
        ({| trace := trace st;
            sets := match preserve with
                    | Some i => <[i := held']> (sets st)
                    | None => sets st
                    end |},
         inr (<["artist_config" := VDict section']> config))
    end.

(** [for arg in args: sketch_show(..., f"{sketch}:{arg}", what,
    exclusive=True, preserve=preserve)] *)
Definition exclusive_each (sketch : string) (what : action) (preserve : nat)
    (args : list string) (config : gmap string value) : M (gmap string value) :=
  for_each
    (fun config arg =>
       sketch_show_call config (sketch +:+ ":" +:+ arg) what true (Some preserve))
    args config.

Definition reference_block (reference : option (list string))
    (config : gmap string value) : M (gmap string value) :=
  match reference with
  | Some args =>
      let* preserve := new_set in
      let* config := sketch_show_call config "reference" Show false None in
      exclusive_each "reference" Show preserve args config
  | None => ret config
  end.

Definition displaced_block (displaced : option (list string))
    (config : gmap string value) : M (gmap string value) :=
  match displaced with
  | Some args =>
      let* preserve := new_set in
      exclusive_each "displaced" Show preserve args config
  | None => ret config
  end.

Definition hide_block (hide : option (list string))
    (config : gmap string value) : M (gmap string value) :=
  match hide with
  | Some args =>
      let* preserve := new_set in
      let sketch := "reference" in
      exclusive_each sketch Hide preserve args config
  | None => ret config
  end.

(** The visibility directives of one call of [render]. *)
Definition directives (show hide displaced reference : option (list string))
    (config : gmap string value) : M (gmap string value) :=
  let reference := effective_reference show displaced reference in
  let* config := reference_block reference config in
  let* config := displaced_block displaced config in
  hide_block hide config.

(** The event of one exclusive directive of a block: the call
    [sketch_show(section, f"{sketch}:{arg}", what, exclusive=True,
    preserve=<cell id>)]. *)
Definition exclusive_call (sketch : string) (what : action) (id : nat)
    (arg : string) : event :=
  EvSketchShow {| call_key := sketch +:+ ":" +:+ arg; call_what := what;
                  call_exclusive := true; call_preserve := Some id |}.

(** The non-exclusive call that opens the reference block. *)
Definition baseline_call : event :=
  EvSketchShow {| call_key := "reference"; call_what := Show;
                  call_exclusive := false; call_preserve := None |}.

(** What one block of directives adds to the trace when its list is given:
    the allocation of its own set, the baseline call (reference block only),
    and one exclusive call per entry, each carrying that set. *)
Definition block_events (baseline : bool) (sketch : string) (what : action)
    (id : nat) (block : option (list string)) : list event :=
  match block with
  | Some args =>
      EvNewSet id :: (if baseline then [baseline_call] else [])
      ++ map (exclusive_call sketch what id) args
  | None => []
  end.

(** The cell a block leaves behind: the keys of its own directives. *)
Definition block_sets (sketch : string) (block : option (list string))
    : list (gset string) :=
  match block with
  | Some args => [list_to_set (map (fun arg => sketch +:+ ":" +:+ arg) args)]
  | None => []
  end.

Definition supplied (block : option (list string)) : nat :=
  match block with Some _ => 1 | None => 0 end.



(** A sketch name followed by a colon and an attribute parses back to that
    sketch. *)
Definition parses_under (sketch : string) : Prop :=
  ∀ arg, parse_key (sketch +:+ ":" +:+ arg)
         = Some {| sketch := sketch; attribute := Some arg |}.

Section render.
(** Collaborators from modules outside the excerpt: the defaults returned
    by [veux.config.Config()], [veux.model.read_model] and the mapping view
    of [veux.model.FrameModel(sam_file)]; and what the artist does when it
    is constructed, given a state and asked to draw: return, or raise. *)
Variable Config : gmap string value.
Variable read_model : value → exn + gmap string value.
Variable FrameModel : value → exn + gmap string value.
Variable FrameArtist : artist → exn + unit.
Variable artist_add_state : artist → state_call → exn + unit.
Variable artist_draw : artist → exn + unit.

Definition read_model_data (sam_file : value) : M value :=
  match sam_file with
  | VStr _ | VPath _ =>
      do emit (EvReadModel sam_file) then lift (as_model (read_model sam_file))
  | _ =>
      if hasattr sam_file "asdict" then
        ret (method sam_file "asdict")
      else if hasattr sam_file "read" then
        do emit (EvReadModel sam_file) then lift (as_model (read_model sam_file))
      else
        match sam_file with
        | VTuple _ => raise (NameError "model_data")
        | VDict _ => ret sam_file
        | _ => lift (as_model (FrameModel sam_file))
        end
  end.

(** [if "RendererConfiguration" in model_data:
        apply_config(model_data["RendererConfiguration"], config)] *)
Definition embedded_layer (model_data : value) (config : gmap string value)
    : exn + gmap string value :=
  match contains model_data "RendererConfiguration" with
  | inl e => inl e
  | inr false => inr config
  | inr true =>
      match subscript model_data "RendererConfiguration" with
      | inl e => inl e
      | inr embedded =>
          match as_mapping embedded with
          | inl e => inl e
          | inr embedded => inr (apply_config embedded config)
          end
      end
  end.

(** The settings of one call: defaults, then the configuration embedded in
    the model, then the [vertical] argument, then the remaining keywords. *)
Definition build_config (model_data : value) (vertical : value)
    (opts : gmap string value) : exn + gmap string value :=
  let config := Config in
  match embedded_layer model_data config with
  | inl e => inl e
  | inr config =>
      match set_vertical config vertical with
      | inl e => inl e
      | inr config => inr (apply_config opts config)
      end
  end.

(** [artist.add_state(res_file, scale=config["scale"],
    only=config["mode_num"], **config["state_config"])]: the keywords are
    put together before the call, and a [scale] or [only] entry of
    [state_config] clashes with the keyword written out. *)
Definition add_state (config : gmap string value) (source : value)
    (a : artist) : M artist :=
  let* scale := lift (subscript (VDict config) "scale") in
  let* only := lift (subscript (VDict config) "mode_num") in
  let* c := lift (subscript (VDict config) "state_config") in
  let* kwds := lift (as_mapping c) in
  if bool_decide (is_Some (kwds !! "scale"))
     || bool_decide (is_Some (kwds !! "only"))
  then raise (TypeError "got multiple values for keyword argument")
  else
    let c := {| state_source := source; state_scale := scale;
                state_only := only; state_kwds := kwds |} in
    do emit (EvAddState source scale only kwds) then
    do lift (artist_add_state a c) then
    ret (with_state a c).

(** [if "Displacements" in model_data: cases.extend(...)], where the name
    [cases] is looked up before the argument is evaluated and nothing binds
    it; then [artist.draw()] and [return artist]. *)
Definition draw_and_return (model_data : value) (a : artist) : M artist :=
  let* has := lift (contains model_data "Displacements") in
  do (if has then raise (NameError "cases") else ret tt) then
  do emit EvDraw then
  do lift (artist_draw a) then
  ret a.

(** [if verbose: pprint.pp(config["artist_config"])], then
    [FrameArtist(model_data, ndf=ndf, config=config["artist_config"],
    model_config=config["model_config"], canvas=_create_canvas(canvas or
    config["canvas_config"]["type"], config=config["canvas_config"]))], the
    arguments evaluated from left to right. *)
Definition create_artist (model_data : value) (config : gmap string value)
    (ndf canvas : value) (verbose : bool) : M artist :=
  let* _ := (if verbose then
               let* section := lift (subscript (VDict config) "artist_config") in
               emit (EvPrint section)
             else ret tt) in
  let* a_config := lift (subscript (VDict config) "artist_config") in
  let* m_config := lift (subscript (VDict config) "model_config") in
  let* name := (if truthy canvas then ret canvas
                else let* c := lift (subscript (VDict config) "canvas_config") in
                     lift (subscript c "type")) in
  let* c_config := lift (subscript (VDict config) "canvas_config") in
  let* cv := lift (_create_canvas name c_config) in
  do emit (EvCreateCanvas cv) then
  do emit (EvCreateArtist model_data ndf a_config m_config cv) then
  let a := new_artist model_data ndf a_config m_config cv in
  do lift (FrameArtist a) then
  ret a.

(** The displacement state ([if res_file is not None: ... elif
    config["displ"] is not None: pass]), then the check on [Displacements]
    and the drawing. *)
Definition render_states (model_data : value) (config : gmap string value)
    (res_file : value) (a : artist) : M artist :=
  let* a := (match res_file with
             | VNone =>
                 let* _ := lift (subscript (VDict config) "displ") in ret a
             | _ => add_state config res_file a
             end) in
  draw_and_return model_data a.

Definition render (sam_file res_file ndf canvas : value)
    (show hide : option (list string)) (verbose : bool) (vertical : value)
    (displaced reference : option (list string))
    (opts : gmap string value) : M artist :=
  match sam_file with
  | VNone => raise (RenderError "Expected required argument <sam-file>")
  | _ =>
    let* model_data := read_model_data sam_file in
    let* config := lift (build_config model_data vertical opts) in
    let* config := directives show hide displaced reference config in
    let* a := create_artist model_data config ndf canvas verbose in
    render_states model_data config res_file a
  end.

End render.

(** Three layers and nothing else, lowest priority first: defaults, embedded
    configuration, overrides. *)
Definition layered (defaults embedded overrides : gmap string value)
    : gmap string value :=
  apply_config overrides (apply_config embedded defaults).

(** Inputs of the examples: a model without content, defaults that hold the
    sections [render] reads, readers that are never reached and an artist
    that never raises. *)
Definition no_reader (source : value) : exn + gmap string value :=
  inl (TypeError "no reader").

Definition willing (a : artist) : exn + unit := inr tt.

Definition willing_state (a : artist) (c : state_call) : exn + unit := inr tt.

Definition plain_defaults : gmap string value :=
  {[ "artist_config" := VDict ∅; "model_config" := VDict ∅;
     "canvas_config" := VDict {[ "type" := VStr "gltf" ]};
     "displ" := VNone ]}.

Definition initial : state := {| trace := []; sets := [] |}.

(** The settings [render] builds from [plain_defaults] for an empty model,
    and defaults that also hold what [add_state] is given. *)
Definition plain_config : gmap string value :=
  <["artist_config" := VDict {[ "vertical" := VInt 2 ]}]> plain_defaults.

Definition state_defaults : gmap string value :=
  <["scale" := VInt 1]>
    (<["mode_num" := VNone]> (<["state_config" := VDict ∅]> plain_defaults)).

Definition state_config : gmap string value :=
  <["artist_config" := VDict {[ "vertical" := VInt 2 ]}]> state_defaults.

(** ** Predicates on runs *)

(** A computation that never asks the artist to draw: whatever it adds to
    the trace holds no [EvDraw]. *)
Definition quiet {A} (m : M A) : Prop :=
  ∀ st, ∃ evs, trace (fst (m st)) = trace st ++ evs ∧ EvDraw ∉ evs.

(** A trace that ends with its only call of [draw]. *)
Definition ends_with_draw (evs : list event) : Prop :=
  ∃ before, evs = before ++ [EvDraw] ∧ EvDraw ∉ before.

(** A computation that asks the artist to draw at most once, as its last
    act: it returns an artist exactly when that call was made and returned,
    and an exception leaves it either before any call of [draw] or out of
    that call. *)
Definition draws_last (artist_draw : artist → exn + unit) (m : M artist)
    : Prop :=
  ∀ st, ∃ evs,
    trace (fst (m st)) = trace st ++ evs
    ∧ match snd (m st) with
      | inr a => ends_with_draw evs ∧ artist_draw a = inr tt
      | inl e =>
          EvDraw ∉ evs ∨ (ends_with_draw evs ∧ ∃ a, artist_draw a = inl e)
      end.

(** A computation that ends in an exception from every state, without a
    call of [draw]. *)
Definition fails_quietly {A} (m : M A) : Prop :=
  ∀ st, ∃ e evs,
    snd (m st) = inl e ∧ trace (fst (m st)) = trace st ++ evs ∧ EvDraw ∉ evs.

(** What a computation guarantees about the value it returns, when it
    returns. *)
Definition ensures {A} (m : M A) (P : A → Prop) : Prop :=
  ∀ st x, snd (m st) = inr x → P x.

(** Two configurations that agree on every key but [artist_config]. *)
Definition same_outside_artist (config config' : gmap string value) : Prop :=
  ∀ k, k ≠ "artist_config" → config' !! k = config !! k.

(** A key that does not belong to the sketch [sk]. *)
Definition outside (sk k : string) : Prop :=
  ∀ vk, parse_key k = Some vk → sketch vk ≠ sk.

(** Two configurations whose artist sections hold the same values under the
    keys outside the sketch [sk]. *)
Definition same_outside_sketch (sk : string) (config config' : gmap string value)
    : Prop :=
  ∀ section, config !! "artist_config" = Some (VDict section) →
    ∃ section', config' !! "artist_config" = Some (VDict section')
      ∧ ∀ k v, outside sk k → section !! k = Some v → section' !! k = Some v.

Definition is_print (e : event) : bool :=
  match e with EvPrint _ => true | _ => false end.

(** A trace with the output of [pprint.pp] left out. *)
Definition unprinted (events : list event) : list event :=
  List.filter (fun e => negb (is_print e)) events.

(** Two states that differ at most in what was printed. *)
Definition same_but_prints (st st' : state) : Prop :=
  unprinted (trace st) = unprinted (trace st') ∧ sets st = sets st'.

(** A computation whose result and effects do not depend on what was printed
    before it. *)
Definition print_blind {A} (m : M A) : Prop :=
  ∀ st st', same_but_prints st st' →
    same_but_prints (fst (m st)) (fst (m st')) ∧ snd (m st) = snd (m st').

(** Two computations that, from the same state, give the same result and the
    same effects but for what they print. *)
Definition agree_but_prints {A} (m m' : M A) : Prop :=
  ∀ st, same_but_prints (fst (m st)) (fst (m' st)) ∧ snd (m st) = snd (m' st).

Definition is_read_model (e : event) : bool :=
  match e with EvReadModel _ => true | _ => false end.

(** The calls to [veux.model.read_model] in a trace. *)
Definition model_reads (events : list event) : list event :=
  List.filter is_read_model events.

(** The sources [render] hands to [read_model]: strings and paths, and the
    objects with a [read] attribute that have no [asdict]. *)
Definition reads_file (sam_file : value) : bool :=
  match sam_file with
  | VStr _ | VPath _ => true
  | _ => negb (hasattr sam_file "asdict") && hasattr sam_file "read"
  end.

(** A computation whose calls to [read_model] are the events [l]. *)
Definition reads {A} (m : M A) (l : list event) : Prop :=
  ∀ st, ∃ evs, trace (fst (m st)) = trace st ++ evs ∧ model_reads evs = l.

(** The key and the exclusiveness of a [hide] directive handed to the
    resolver. *)
Definition hide_directive (e : event) : option (string * bool) :=
  match e with
  | EvSketchShow c =>
      match call_what c with
      | Hide => Some (call_key c, call_exclusive c)
      | Show => None
      end
  | _ => None
  end.

(** The [hide] directives of a trace, in the order they were issued. *)
Definition hide_directives (events : list event) : list (string * bool) :=
  omap hide_directive events.

(** A computation whose [hide] directives are [l]. *)
Definition hides {A} (m : M A) (l : list (string * bool)) : Prop :=
  ∀ st, ∃ evs, trace (fst (m st)) = trace st ++ evs ∧ hide_directives evs = l.

(** ** Lemmas on the merge *)

Section merge_facts.
Implicit Types (D S : gmap string value) (k : string) (v : value).

Lemma merge_value_dict ms md :
  merge_value (VDict ms) (Some (VDict md)) = VDict (apply_config ms md).
Proof. reflexivity. Qed.

Lemma merge_value_leaf v od :
  is_dict v = false → merge_value v od = v.
Proof. by destruct v. Qed.

Lemma merge_value_over_leaf v od :
  (∀ md, od ≠ Some (VDict md)) → merge_value v od = v.
Proof.
  intros Hod. destruct v as [| | | | | | | |ms|]; try done.
  destruct od as [[| | | | | | | |md|]|]; try done. by destruct (Hod md).
Qed.

(** The loop over the source's keys computes the key-wise merge. *)
Lemma lookup_apply_config S D k :
  apply_config S D !! k = merge_at (D !! k) (S !! k).
Proof.
  unfold apply_config.
  apply (map_fold_weak_ind
           (fun r m => r !! k = merge_at (D !! k) (m !! k))).
  - by rewrite lookup_empty.
  - intros i x m r Hi IH.
    destruct (decide (i = k)) as [->|Hne].
    + rewrite !lookup_insert_eq. simpl.
      rewrite IH, Hi. done.
    + by rewrite !lookup_insert_ne.
Qed.

Lemma apply_config_empty_source D : apply_config ∅ D = D.
Proof. apply map_eq. intros k. by rewrite lookup_apply_config, lookup_empty. Qed.

Lemma depth_lookup_lt (m : gmap string value) k v :
  m !! k = Some v → (depth v < depth (VDict m))%nat.
Proof.
  simpl. revert k v.
  apply (map_fold_weak_ind
           (fun n (m : gmap string value) =>
              ∀ k v, m !! k = Some v → (depth v < S n)%nat)).
  - intros k v. by rewrite lookup_empty.
  - intros i x m' r Hi IH k v.
    destruct (decide (i = k)) as [->|Hne].
    + rewrite lookup_insert_eq. intros [= ->]. lia.
    + rewrite lookup_insert_ne by done. intros Hk.
      specialize (IH _ _ Hk). lia.
Qed.

(** Induction on settings trees: a property that holds of every non-section
    value, and of a section whenever it holds of all its entries. *)
Lemma value_dict_ind (P : value → Prop) :
  (∀ v, is_dict v = false → P v) →
  (∀ m, (∀ k v, m !! k = Some v → P v) → P (VDict m)) →
  ∀ v, P v.
Proof.
  intros Hleaf Hdict v.
  remember (depth v) as n eqn:Hn.
  revert v Hn. induction n as [n IH] using lt_wf_ind. intros v ->.
  destruct (is_dict v) eqn:Hv; [|by apply Hleaf].
  destruct v; try done.
  apply Hdict. intros k v Hk.
  eapply IH; [|reflexivity]. by eapply depth_lookup_lt.
Qed.

Lemma merge_value_self v : merge_value v (Some v) = v.
Proof.
  induction v as [v Hv|m IH] using value_dict_ind.
  - by apply merge_value_leaf.
  - rewrite merge_value_dict. f_equal.
    apply map_eq. intros k. rewrite lookup_apply_config.
    destruct (m !! k) as [v|] eqn:Hk; [|done].
    simpl. f_equal. by eapply IH.
Qed.

Lemma merge_value_idem v od :
  merge_value v (Some (merge_value v od)) = merge_value v od.
Proof.
  revert od. induction v as [v Hv|m IH] using value_dict_ind; intros od.
  - by rewrite !merge_value_leaf.
  - assert ((∃ md, od = Some (VDict md)) ∨ (∀ md, od ≠ Some (VDict md)))
      as [[md ->]|Hno] by (destruct od as [[]|]; naive_solver).
    + rewrite !merge_value_dict. f_equal.
      apply map_eq. intros k. rewrite !lookup_apply_config.
      destruct (m !! k) as [v|] eqn:Hk; [|done].
      simpl. f_equal. by eapply IH.
    + rewrite (merge_value_over_leaf (VDict m) od Hno).
      apply merge_value_self.
Qed.

End merge_facts.

(** ** Theorems *)

(** C4. The configuration merge is idempotent: merging the same source [S]
    a second time into the result of merging it into [D] changes nothing,
    for all destinations [D] and sources [S]. *)
Theorem apply_config_idempotent (D S : gmap string value) :
  apply_config S (apply_config S D) = apply_config S D.
Proof.
  apply map_eq. intros k. rewrite !lookup_apply_config.
  destruct (S !! k) as [v|]; [|done].
  simpl. f_equal. apply merge_value_idem.
Qed.

(** ** [render]: missing model source *)

(** C5. Calling [render] without a model source ([sam_file] is [None])
    raises the error reserved for a missing input, [RenderError], whatever
    the other arguments are; nothing has been read, allocated or constructed
    at that point: the state, and with it the trace of collaborator calls,
    is the one the call started in. *)
Theorem render_missing_input Config read_model FrameModel FrameArtist
    artist_add_state artist_draw
    res_file ndf canvas show hide verbose vertical displaced reference opts st :
  render Config read_model FrameModel FrameArtist artist_add_state artist_draw
         VNone res_file ndf canvas show hide verbose vertical displaced
         reference opts st
  = (st, inl (RenderError "Expected required argument <sam-file>")).
Proof. reflexivity. Qed.

(** ** [_create_canvas]: selecting a backend *)

Lemma eqb_false_of_ne (s t : string) : s ≠ t → String.eqb s t = false.
Proof. intros H. by apply String.eqb_neq. Qed.

(** C6. A string that is none of the registered identifiers is rejected with
    a [ValueError] whose message ends in that very string (so ["foo"] is
    rejected by an error naming ["foo"]); [gltf], [plotly], [matplotlib] and
    [trimesh] are accepted and give the canvas of that backend. *)
Theorem create_canvas_unknown_backend (name : string) (config : value) :
  name ∉ backends →
  _create_canvas (VStr name) config
  = inl (ValueError ("Unknown canvas name " +:+ name))
  ∧ _create_canvas (VStr "gltf") config = inr (GltfLibCanvas config)
  ∧ _create_canvas (VStr "plotly") config = inr (PlotlyCanvas config)
  ∧ _create_canvas (VStr "matplotlib") config = inr (MatplotlibCanvas config)
  ∧ _create_canvas (VStr "trimesh") config = inr (TrimeshCanvas config).
Proof.
  intros Hname. split; [|done].
  unfold backends in Hname.
  rewrite !not_elem_of_cons in Hname.
  destruct Hname as (H1 & H2 & H3 & H4 & _).
  unfold _create_canvas.
  by rewrite !eqb_false_of_ne.
Qed.

Lemma create_canvas_unknown_backend_witness :
  _create_canvas (VStr "foo") VNone = inl (ValueError "Unknown canvas name foo").
Proof.
  apply (create_canvas_unknown_backend "foo" VNone).
  unfold backends. rewrite !not_elem_of_cons.
  repeat split; try discriminate. apply not_elem_of_nil.
Defined.

(** C10. A selector that is neither [None] nor a string is returned as it
    is: no backend is looked up and nothing is raised, so unknown identifiers
    are only rejected among strings; [None] selects the default ["gltf"]. *)
Theorem create_canvas_passthrough (name config : value) :
  name ≠ VNone → is_str name = false →
  _create_canvas name config = inr (GivenCanvas name)
  ∧ _create_canvas VNone config = _create_canvas (VStr "gltf") config
  ∧ _create_canvas VNone config = inr (GltfLibCanvas config).
Proof.
  intros Hnone Hstr. split; [|done].
  by destruct name.
Qed.

Lemma create_canvas_passthrough_witness :
  _create_canvas (VInt 7) VNone = inr (GivenCanvas (VInt 7))
  ∧ _create_canvas VNone VNone = _create_canvas (VStr "gltf") VNone
  ∧ _create_canvas VNone VNone = inr (GltfLibCanvas VNone).
Proof.
  apply (create_canvas_passthrough (VInt 7) VNone); [discriminate | reflexivity].
Defined.

(** ** [serve] *)

(** C7 fails as stated: a canvas that offers [show] but neither [to_glb] nor
    [to_html] is displayed, and no error is raised. *)
Lemma serve_show_only_not_an_error :
  let thing := VObj {[ "show" := VNone ]} true in
  hasattr (serve_target thing) "to_glb" = false
  ∧ hasattr (serve_target thing) "to_html" = false
  ∧ serve thing (VStr "mv") VNone {| trace := []; sets := [] |}
    = ({| trace := [EvCanvasShow thing]; sets := [] |}, inr tt).
Proof. cbv zeta. repeat split; vm_compute; reflexivity. Qed.

(** C7, amended. [serve] raises [ValueError] exactly when the canvas it works
    on ([thing.canvas] if [thing] has one, else [thing]) offers none of
    [to_glb], [to_html] and [show].  With [to_glb] a server is run on the
    exported scene and the viewer, otherwise with [to_html] a server is run
    on the exported document, and nothing is raised; with [show] alone the
    canvas's own [show()] is called, and that is the only call made. *)
Theorem serve_error_iff (thing viewer port : value) (st : state) :
  let canvas := serve_target thing in
  (snd (serve thing viewer port st) = inl (ValueError "Cannot serve artist")
   ↔ hasattr canvas "to_glb" = false
     ∧ hasattr canvas "to_html" = false
     ∧ hasattr canvas "show" = false)
  ∧ (hasattr canvas "to_glb" = true →
     serve thing viewer port st
     = ({| trace := trace st
                    ++ [EvServerRun (Glb (method canvas "to_glb") viewer) port];
           sets := sets st |},
        inr tt))
  ∧ (hasattr canvas "to_glb" = false → hasattr canvas "to_html" = true →
     serve thing viewer port st
     = ({| trace := trace st
                    ++ [EvServerRun (Html (method canvas "to_html")) port];
           sets := sets st |},
        inr tt))
  ∧ (hasattr canvas "to_glb" = false → hasattr canvas "to_html" = false →
     hasattr canvas "show" = true →
     serve thing viewer port st
     = ({| trace := trace st ++ [EvCanvasShow canvas]; sets := sets st |},
        inr tt))
  ∧ (hasattr canvas "to_glb" = false → hasattr canvas "to_html" = false →
     hasattr canvas "show" = false →
     serve thing viewer port st = (st, inl (ValueError "Cannot serve artist"))).
Proof.
  intros canvas. unfold serve. fold canvas.
  destruct (hasattr canvas "to_glb") eqn:Hglb;
    destruct (hasattr canvas "to_html") eqn:Hhtml;
    destruct (hasattr canvas "show") eqn:Hshow; simpl.
  all: split; [split|].
  all: try (intros (? & ? & ?); discriminate).
  all: try discriminate.
  all: try done.
  all: repeat split; intros; try discriminate; reflexivity.
Qed.

Lemma serve_error_iff_witness :
  let artist :=
    VObj {[ "canvas" := VObj {[ "show" := VNone ]} true ]} true in
  serve artist (VStr "mv") VNone {| trace := []; sets := [] |}
  = ({| trace := [] ++ [EvCanvasShow (serve_target artist)]; sets := [] |},
     inr tt).
Proof.
  intros artist.
  apply (proj1 (proj2 (proj2 (proj2 (serve_error_iff artist (VStr "mv") VNone
                                       {| trace := []; sets := [] |}))))).
  - vm_compute. reflexivity.
  - vm_compute. reflexivity.
  - vm_compute. reflexivity.
Defined.

(** ** [render]: the [show] argument *)

(** C9. With [reference] and [displaced] both absent, a [show] list is used
    as the [reference] list: the call is the one that passes the list as
    [reference] (with any [show]).  As soon as [reference] or [displaced] is
    given, [show] is ignored: any two values of it give the same call. *)
Theorem render_show_fallback Config read_model FrameModel FrameArtist
    artist_add_state artist_draw
    sam_file res_file ndf canvas hide verbose vertical opts
    (show show' : option (list string)) (args : list string)
    (displaced reference : option (list string)) :
  render Config read_model FrameModel FrameArtist artist_add_state artist_draw
         sam_file res_file ndf canvas
         (Some args) hide verbose vertical None None opts
  = render Config read_model FrameModel FrameArtist artist_add_state
           artist_draw sam_file res_file ndf canvas
           show hide verbose vertical None (Some args) opts
  ∧ render Config read_model FrameModel FrameArtist artist_add_state
           artist_draw sam_file res_file ndf canvas
           show hide verbose vertical displaced (Some args) opts
    = render Config read_model FrameModel FrameArtist artist_add_state
             artist_draw sam_file res_file ndf canvas
             show' hide verbose vertical displaced (Some args) opts
  ∧ render Config read_model FrameModel FrameArtist artist_add_state
           artist_draw sam_file res_file ndf canvas
           show hide verbose vertical (Some args) reference opts
    = render Config read_model FrameModel FrameArtist artist_add_state
             artist_draw sam_file res_file ndf canvas
             show' hide verbose vertical (Some args) reference opts.
Proof.
  assert (Hd : ∀ sh dis ref sh' dis' ref',
             dis = dis' →
             effective_reference sh dis ref = effective_reference sh' dis' ref' →
             directives sh hide dis ref = directives sh' hide dis' ref').
  { intros sh dis ref sh' dis' ref' <- Heq. unfold directives. by rewrite Heq. }
  unfold render.
  split; [|split].
  - rewrite (Hd (Some args) None None show None (Some args)); [done..|].
    by destruct show.
  - rewrite (Hd show displaced (Some args) show' displaced (Some args)); [done..|].
    by destruct show, show'.
  - rewrite (Hd show (Some args) reference show' (Some args) reference); [done..|].
    by destruct show, show', reference.
Qed.

(** ** The resolver: exclusive directives and the preserve set *)

Section resolver_facts.
Implicit Types (config : gmap string value) (preserve : gset string).

Lemma sketch_show_plain config key what preserve vk :
  parse_key key = Some vk →
  sketch_show config key what false preserve
  = inr (<[key := flag_value (flag_of_action what)]> config, preserve).
Proof. intros Hk. unfold sketch_show. by rewrite Hk. Qed.

Lemma sketch_show_exclusive config key what preserve vk :
  parse_key key = Some vk →
  ∃ config',
    sketch_show config key what true preserve = inr (config', preserve ∪ {[ key ]})
    ∧ ∀ k v, <[key := flag_value (flag_of_action what)]> config !! k = Some v →
             config' !! k = Some (exclude (sketch vk) key what preserve k v).
Proof.
  intros Hk. unfold sketch_show. rewrite Hk.
  eexists. split; [reflexivity|].
  intros k v Hv. by rewrite map_lookup_imap, Hv.
Qed.

Lemma exclude_self sk key what preserve v :
  exclude sk key what preserve key v = v.
Proof. unfold exclude, is_sibling. by rewrite String.eqb_refl. Qed.

Lemma exclude_preserved sk key what preserve k v :
  k ∈ preserve → exclude sk key what preserve k v = v.
Proof.
  intros Hk. unfold exclude.
  rewrite (bool_decide_eq_true_2 _ Hk). simpl. by rewrite andb_false_r.
Qed.

Lemma exclude_sibling sk key what preserve k v :
  is_sibling sk key k v = true → k ∉ preserve →
  exclude sk key what preserve k v = flag_value (complement what).
Proof.
  intros Hs Hk. unfold exclude.
  by rewrite Hs, (bool_decide_eq_false_2 _ Hk).
Qed.

End resolver_facts.

(** C3. Take a section in which [reference:fiber] has a state (as it has
    when node, element and fiber are the attributes of the reference sketch).
    Showing [reference] without exclusivity, then [reference:node] and
    [reference:element] exclusively with one preserve set handed from the
    first exclusive call to the second, leaves node shown, element shown and
    fiber hidden. *)
Theorem exclusive_pair_keeps_first (config : gmap string value) :
  has_state config "reference:fiber" →
  ∃ c1 c2 c3 P1 P2,
    sketch_show config "reference" Show false ∅ = inr (c1, ∅)
    ∧ sketch_show c1 "reference:node" Show true ∅ = inr (c2, P1)
    ∧ sketch_show c2 "reference:element" Show true P1 = inr (c3, P2)
    ∧ get_flag c3 "reference:node" = Some Shown
    ∧ get_flag c3 "reference:element" = Some Shown
    ∧ get_flag c3 "reference:fiber" = Some Hidden.
Proof.
  intros [f Hf]. unfold get_flag in Hf.
  destruct (config !! "reference:fiber") as [v|] eqn:Hv; [|done]. simpl in Hf.
  set (c1 := <["reference" := VBool true]> config).
  destruct (sketch_show_exclusive c1 "reference:node" Show ∅
              {| sketch := "reference"; attribute := Some "node" |} eq_refl)
    as (c2 & Hc2 & L2).
  destruct (sketch_show_exclusive c2 "reference:element" Show (∅ ∪ {[ "reference:node" ]})
              {| sketch := "reference"; attribute := Some "element" |} eq_refl)
    as (c3 & Hc3 & L3).
  exists c1, c2, c3, (∅ ∪ {[ "reference:node" ]}),
         (∅ ∪ {[ "reference:node" ]} ∪ {[ "reference:element" ]}).
  split; [reflexivity|]. split; [exact Hc2|]. split; [exact Hc3|].
  assert (Hn2 : c2 !! "reference:node" = Some (VBool true)).
  { rewrite (L2 _ (VBool true)) by apply lookup_insert_eq.
    by rewrite exclude_self. }
  assert (Hf2 : c2 !! "reference:fiber" = Some (VBool false)).
  { rewrite (L2 _ v).
    - rewrite exclude_sibling; [done| |set_solver].
      unfold is_sibling. rewrite bool_decide_eq_true_2; [done|].
      by rewrite Hf.
    - unfold c1. by rewrite !lookup_insert_ne. }
  unfold get_flag. repeat split.
  - rewrite (L3 _ (VBool true)) by (by rewrite lookup_insert_ne).
    rewrite exclude_preserved; [done|set_solver].
  - rewrite (L3 _ (VBool true)) by apply lookup_insert_eq.
    by rewrite exclude_self.
  - rewrite (L3 _ (VBool false)) by (by rewrite lookup_insert_ne).
    rewrite exclude_sibling; [reflexivity|reflexivity|].
    set_unfold. intros [[]|?]. discriminate.
Qed.

Lemma exclusive_pair_keeps_first_witness :
  ∃ c1 c2 c3 P1 P2,
    sketch_show {[ "reference:node" := VNone; "reference:element" := VNone;
                   "reference:fiber" := VNone ]} "reference" Show false ∅
    = inr (c1, ∅)
    ∧ sketch_show c1 "reference:node" Show true ∅ = inr (c2, P1)
    ∧ sketch_show c2 "reference:element" Show true P1 = inr (c3, P2)
    ∧ get_flag c3 "reference:node" = Some Shown
    ∧ get_flag c3 "reference:element" = Some Shown
    ∧ get_flag c3 "reference:fiber" = Some Hidden.
Proof.
  apply (exclusive_pair_keeps_first
           {[ "reference:node" := VNone; "reference:element" := VNone;
              "reference:fiber" := VNone ]}).
  exists Unset. vm_compute. reflexivity.
Defined.

(** ** The directive blocks of [render] *)

Section directive_facts.
Implicit Types (config section : gmap string value) (st : state).
Implicit Types (base : list (gset string)) (held : gset string).

Lemma sketch_show_call_plain config section key what vk st :
  config !! "artist_config" = Some (VDict section) →
  parse_key key = Some vk →
  sketch_show_call config key what false None st
  = ({| trace := trace st ++ [EvSketchShow {| call_key := key; call_what := what;
                                             call_exclusive := false;
                                             call_preserve := None |}];
        sets := sets st |},
     inr (<["artist_config" :=
              VDict (<[key := flag_value (flag_of_action what)]> section)]> config)).
Proof.
  intros Hs Hk.
  unfold sketch_show_call, bind, lift, emit, subscript. rewrite Hs. simpl.
  by rewrite (sketch_show_plain _ _ _ _ vk Hk).
Qed.

Lemma sketch_show_call_exclusive config section key what vk st base held :
  config !! "artist_config" = Some (VDict section) →
  parse_key key = Some vk →
  sets st = base ++ [held] →
  ∃ section',
    sketch_show_call config key what true (Some (length base)) st
    = ({| trace := trace st ++ [EvSketchShow {| call_key := key; call_what := what;
                                               call_exclusive := true;
                                               call_preserve := Some (length base) |}];
          sets := base ++ [held ∪ {[ key ]}] |},
       inr (<["artist_config" := VDict section']> config)).
Proof.
  intros Hs Hk Hsets.
  destruct (sketch_show_exclusive section key what held vk Hk) as (section' & Hrun & _).
  exists section'.
  unfold sketch_show_call, bind, lift, emit, subscript. rewrite Hs. simpl.
  rewrite Hsets, list_lookup_middle by done. simpl. rewrite Hrun.
  do 2 f_equal.
  rewrite insert_app_r_alt by done. by rewrite Nat.sub_diag.
Qed.

Lemma parses_under_reference : parses_under "reference".
Proof. intros arg. reflexivity. Qed.

Lemma parses_under_displaced : parses_under "displaced".
Proof. intros arg. reflexivity. Qed.

Lemma exclusive_each_run sketch what args :
  parses_under sketch →
  ∀ config section st base held,
    config !! "artist_config" = Some (VDict section) →
    sets st = base ++ [held] →
    ∃ config' section',
      exclusive_each sketch what (length base) args config st
      = ({| trace := trace st ++ map (exclusive_call sketch what (length base)) args;
            sets := base ++ [held ∪ list_to_set
                                      (map (fun arg => sketch +:+ ":" +:+ arg) args)] |},
         inr config')
      ∧ config' !! "artist_config" = Some (VDict section').
Proof.
  intros Hparse. induction args as [|arg args IH];
    intros config section st base held Hs Hsets.
  - exists config, section. split; [|done].
    unfold exclusive_each. simpl. unfold ret.
    rewrite app_nil_r, (right_id_L ∅ (∪)), <- Hsets. by destruct st.
  - destruct (sketch_show_call_exclusive config section _ what _ st base held
                Hs (Hparse arg) Hsets) as (section1 & Hcall).
    edestruct (IH (<["artist_config" := VDict section1]> config) section1
                 {| trace := trace st ++ [exclusive_call sketch what (length base) arg];
                    sets := base ++ [held ∪ {[ sketch +:+ ":" +:+ arg ]}] |}
                 base (held ∪ {[ sketch +:+ ":" +:+ arg ]}))
      as (config' & section' & Hrest & Hs');
      [apply lookup_insert_eq | done |].
    exists config', section'. split; [|done].
    unfold exclusive_each in *. simpl. unfold bind at 1.
    unfold exclusive_call in *. rewrite Hcall, Hrest. simpl.
    by rewrite <- app_assoc, (assoc_L (∪)).
Qed.

Lemma state_eta st : {| trace := trace st ++ []; sets := sets st ++ [] |} = st.
Proof. rewrite !app_nil_r. by destruct st. Qed.

Lemma reference_block_run block config section st :
  config !! "artist_config" = Some (VDict section) →
  ∃ config' section',
    reference_block block config st
    = ({| trace := trace st
                   ++ block_events true "reference" Show (length (sets st)) block;
          sets := sets st ++ block_sets "reference" block |},
       inr config')
    ∧ config' !! "artist_config" = Some (VDict section').
Proof.
  intros Hs. destruct block as [args|]; simpl.
  - edestruct (exclusive_each_run "reference" Show args parses_under_reference
                 (<["artist_config" := VDict (<["reference" := VBool true]> section)]> config)
                 (<["reference" := VBool true]> section)
                 {| trace := (trace st ++ [EvNewSet (length (sets st))]) ++ [baseline_call];
                    sets := sets st ++ [∅] |}
                 (sets st) ∅)
      as (config' & section' & Hrun & Hs'); [apply lookup_insert_eq | done |].
    exists config', section'. split; [|done].
    unfold bind at 1. unfold new_set. unfold bind at 1.
    rewrite (sketch_show_call_plain config section "reference" Show
               {| sketch := "reference"; attribute := None |}) by done.
    simpl in *. unfold baseline_call in *. rewrite Hrun. simpl.
    by rewrite (left_id_L ∅ (∪)), <- !app_assoc.
  - exists config, section. unfold ret. by rewrite state_eta.
Qed.

Lemma exclusive_block_run sketch what block config section st :
  parses_under sketch →
  config !! "artist_config" = Some (VDict section) →
  ∃ config' section',
    (match block with
     | Some args =>
         bind new_set (fun preserve => exclusive_each sketch what preserve args config)
     | None => ret config
     end) st
    = ({| trace := trace st ++ block_events false sketch what (length (sets st)) block;
          sets := sets st ++ block_sets sketch block |},
       inr config')
    ∧ config' !! "artist_config" = Some (VDict section').
Proof.
  intros Hparse Hs. destruct block as [args|]; simpl.
  - edestruct (exclusive_each_run sketch what args Hparse config section
                 {| trace := trace st ++ [EvNewSet (length (sets st))];
                    sets := sets st ++ [∅] |}
                 (sets st) ∅)
      as (config' & section' & Hrun & Hs'); [done | done |].
    exists config', section'. split; [|done].
    unfold bind, new_set. simpl in *. rewrite Hrun.
    by rewrite (left_id_L ∅ (∪)), <- !app_assoc.
  - exists config, section. unfold ret. by rewrite state_eta.
Qed.

Lemma length_block_sets sketch block :
  length (block_sets sketch block) = supplied block.
Proof. by destruct block. Qed.

(** The whole batch of one call, on a configuration whose artist section
    is a dictionary. *)
Lemma directives_run show hide displaced reference config section st :
  config !! "artist_config" = Some (VDict section) →
  let reference' := effective_reference show displaced reference in
  let n := length (sets st) in
  ∃ config',
    directives show hide displaced reference config st
    = ({| trace := trace st
                   ++ block_events true "reference" Show n reference'
                   ++ block_events false "displaced" Show
                        (n + supplied reference') displaced
                   ++ block_events false "reference" Hide
                        (n + supplied reference' + supplied displaced) hide;
          sets := sets st
                  ++ block_sets "reference" reference'
                  ++ block_sets "displaced" displaced
                  ++ block_sets "reference" hide |},
       inr config').
Proof.
  intros Hs reference' n.
  destruct (reference_block_run reference' config section st Hs)
    as (c1 & s1 & H1 & Hs1).
  destruct (exclusive_block_run "displaced" Show displaced c1 s1
              {| trace := trace st ++ block_events true "reference" Show n reference';
                 sets := sets st ++ block_sets "reference" reference' |}
              parses_under_displaced Hs1) as (c2 & s2 & H2 & Hs2).
  simpl in H2.
  destruct (exclusive_block_run "reference" Hide hide c2 s2
              {| trace := (trace st ++ block_events true "reference" Show n reference')
                          ++ block_events false "displaced" Show
                               (length (sets st ++ block_sets "reference" reference'))
                               displaced;
                 sets := (sets st ++ block_sets "reference" reference')
                         ++ block_sets "displaced" displaced |}
              parses_under_reference Hs2) as (c3 & s3 & H3 & Hs3).
  simpl in H3.
  exists c3.
  unfold directives. fold reference'.
  unfold bind at 1. rewrite H1. cbv beta iota.
  unfold bind at 1. unfold displaced_block. fold n. rewrite H2. cbv beta iota.
  unfold hide_block. rewrite H3.
  rewrite !length_app, !length_block_sets. fold n.
  by rewrite <- !app_assoc.
Qed.

End directive_facts.






(** ** Steps of a run *)

Lemma bind_ret_l {A B} (x : A) (k : A → M B) : bind (ret x) k = k x.
Proof. reflexivity. Qed.

Lemma bind_lift_inr {A B} (x : A) (k : A → M B) : bind (lift (inr x)) k = k x.
Proof. reflexivity. Qed.

Lemma bind_emit {B} (e : event) (k : unit → M B) (st : state) :
  bind (emit e) k st = k tt {| trace := trace st ++ [e]; sets := sets st |}.
Proof. reflexivity. Qed.

Lemma subscript_lookup (m : gmap string value) k v :
  m !! k = Some v → subscript (VDict m) k = inr v.
Proof. intros H. unfold subscript. by rewrite H. Qed.

(** A call whose model is read goes on with the settings, the directives,
    the artist and the states. *)
Lemma render_read Config read_model FrameModel FrameArtist artist_add_state
    artist_draw sam_file (model : value) res_file ndf canvas show hide verbose
    vertical displaced reference opts (st st0 : state) :
  sam_file ≠ VNone →
  read_model_data read_model FrameModel sam_file st = (st0, inr model) →
  render Config read_model FrameModel FrameArtist artist_add_state artist_draw
         sam_file res_file ndf canvas show hide verbose vertical displaced
         reference opts st
  = (let* config := lift (build_config Config model vertical opts) in
     let* config := directives show hide displaced reference config in
     let* a := create_artist FrameArtist model config ndf canvas verbose in
     render_states artist_add_state artist_draw model config res_file a) st0.
Proof.
  intros Hsome Hread. unfold render.
  destruct sam_file; [done|..].
  all: unfold bind at 1; by rewrite Hread.
Qed.

Lemma render_run Config read_model FrameModel FrameArtist artist_add_state
    artist_draw sam_file (model : value) res_file ndf canvas show hide verbose
    vertical displaced reference opts (config : gmap string value)
    (st st0 : state) :
  sam_file ≠ VNone →
  read_model_data read_model FrameModel sam_file st = (st0, inr model) →
  build_config Config model vertical opts = inr config →
  render Config read_model FrameModel FrameArtist artist_add_state artist_draw
         sam_file res_file ndf canvas show hide verbose vertical displaced
         reference opts st
  = (let* config := directives show hide displaced reference config in
     let* a := create_artist FrameArtist model config ndf canvas verbose in
     render_states artist_add_state artist_draw model config res_file a) st0.
Proof.
  intros Hsome Hread Hbuild.
  rewrite (render_read _ _ _ _ _ _ _ model _ _ _ _ _ _ _ _ _ _ st st0) by done.
  by rewrite Hbuild, bind_lift_inr.
Qed.

(** ** [render]: the [hide] list *)

Section hide_facts.
Context {A B : Type}.

Lemma hides_ret (x : A) : hides (ret x) [].
Proof. intros st. exists []. by rewrite app_nil_r. Qed.

Lemma hides_raise (e : exn) : hides (raise (A := A) e) [].
Proof. intros st. exists []. by rewrite app_nil_r. Qed.

Lemma hides_lift (r : exn + A) : hides (lift r) [].
Proof. intros st. exists []. by rewrite app_nil_r. Qed.

Lemma hides_bind (m : M A) (k : A → M B) (l : list (string * bool)) :
  hides m l → (∀ x, hides (k x) []) → hides (bind m k) l.
Proof.
  intros Hm Hk st. unfold bind.
  destruct (Hm st) as (evs & Ht & Hl).
  destruct (m st) as [st1 [e|x]]; simpl in *.
  - by exists evs.
  - destruct (Hk x st1) as (evs' & Ht' & Hl').
    exists (evs ++ evs'). split.
    + by rewrite Ht', Ht, app_assoc.
    + unfold hide_directives in *. by rewrite omap_app, Hl, Hl', app_nil_r.
Qed.

End hide_facts.

Lemma hides_emit (e : event) : hide_directive e = None → hides (emit e) [].
Proof.
  intros He st. exists [e]. split; [done|].
  unfold hide_directives. simpl. by rewrite He.
Qed.

Ltac hides_step :=
  first
    [ apply hides_ret | apply hides_raise | apply hides_lift
    | apply hides_emit; reflexivity
    | apply hides_bind; [|intros ?]
    | match goal with
      | |- hides (match ?x with _ => _ end) _ => destruct x
      end ].

Lemma hides_read_model_data read_model FrameModel sam_file :
  hides (read_model_data read_model FrameModel sam_file) [].
Proof. unfold read_model_data. repeat hides_step. Qed.

(** Nothing after the directives is a directive. *)
Lemma hides_artist FrameArtist artist_add_state artist_draw model config
    res_file ndf canvas verbose :
  hides (let* a := create_artist FrameArtist model config ndf canvas verbose in
         render_states artist_add_state artist_draw model config res_file a)
        [].
Proof.
  unfold create_artist, render_states, add_state, draw_and_return.
  repeat hides_step.
Qed.

Lemma hide_directives_exclusive sketch what id (args : list string) :
  hide_directives (map (exclusive_call sketch what id) args)
  = match what with
    | Hide => map (fun arg => (sketch +:+ ":" +:+ arg, true)) args
    | Show => []
    end.
Proof.
  unfold hide_directives.
  destruct what; (induction args as [|arg args IH]; [done|]); simpl;
    [exact IH | f_equal; exact IH].
Qed.

Lemma hide_directives_block baseline sketch what id block :
  hide_directives (block_events baseline sketch what id block)
  = match what, block with
    | Hide, Some args => map (fun arg => (sketch +:+ ":" +:+ arg, true)) args
    | _, _ => []
    end.
Proof.
  destruct block as [args|]; [|by destruct what].
  unfold block_events.
  change (hide_directives (EvNewSet id :: ?l)) with (hide_directives l).
  unfold hide_directives. rewrite omap_app.
  fold (hide_directives (map (exclusive_call sketch what id) args)).
  rewrite hide_directives_exclusive.
  destruct baseline, what; reflexivity.
Qed.

(** C8. A call of [render] with a [hide] list, on a model that is read and
    settings whose artist section is a dictionary, issues exactly one
    [hide] directive per entry of the list, in the order of the list, each
    of them exclusive and on the key ["reference:" ++ entry]; no other
    [hide] directive is issued during the call, whatever the other lists
    hold and whatever happens after the directives.  Each of these keys
    belongs to the reference sketch, none to the displaced one. *)
Theorem hide_entries_under_reference Config read_model FrameModel FrameArtist
    artist_add_state artist_draw sam_file (model : value) res_file ndf canvas
    show (args : list string) verbose vertical displaced reference opts
    (config section : gmap string value) (st st0 : state) :
  sam_file ≠ VNone →
  read_model_data read_model FrameModel sam_file st = (st0, inr model) →
  build_config Config model vertical opts = inr config →
  config !! "artist_config" = Some (VDict section) →
  ∃ evs,
    trace (fst (render Config read_model FrameModel FrameArtist
                       artist_add_state artist_draw sam_file res_file ndf
                       canvas show (Some args) verbose vertical displaced
                       reference opts st))
    = trace st ++ evs
    ∧ hide_directives evs = map (fun arg => ("reference:" +:+ arg, true)) args
    ∧ Forall (fun arg =>
                sketch <$> parse_key ("reference:" +:+ arg) = Some "reference")
             args.
Proof.
  intros Hsome Hread Hbuild Hsec.
  rewrite (render_run _ _ _ _ _ _ _ model _ _ _ _ _ _ _ _ _ _ config st st0)
    by done.
  destruct (hides_read_model_data read_model FrameModel sam_file st)
    as (evs0 & Ht0 & Hl0).
  rewrite Hread in Ht0. simpl in Ht0.
  destruct (directives_run show (Some args) displaced reference config section
              st0 Hsec) as (config' & Hrun).
  cbv zeta in Hrun.
  unfold bind at 1. rewrite Hrun. cbv beta iota.
  match goal with |- context [fst (?m ?st1)] =>
    destruct (hides_artist FrameArtist artist_add_state artist_draw model
                config' res_file ndf canvas verbose st1) as (evs1 & Ht1 & Hl1)
  end.
  rewrite Ht1. cbn [trace]. rewrite Ht0.
  eexists. split; [by rewrite <- !app_assoc|]. split.
  - unfold hide_directives in *. rewrite !omap_app, Hl0, Hl1.
    fold hide_directives. rewrite !hide_directives_block.
    by rewrite app_nil_r.
  - apply Forall_forall. intros arg _. reflexivity.
Qed.

Lemma hide_entries_under_reference_witness :
  ∃ evs,
    trace (fst (render plain_defaults no_reader no_reader willing willing_state
                       willing (VDict ∅) VNone (VInt 6) VNone None
                       (Some ["node"; "fiber"]) false (VInt 2) None
                       (Some ["node"]) ∅ initial))
    = trace initial ++ evs
    ∧ hide_directives evs
      = map (fun arg => ("reference:" +:+ arg, true)) ["node"; "fiber"]
    ∧ Forall (fun arg =>
                sketch <$> parse_key ("reference:" +:+ arg) = Some "reference")
             ["node"; "fiber"].
Proof.
  apply (hide_entries_under_reference plain_defaults no_reader no_reader
           willing willing_state willing (VDict ∅) (VDict ∅) VNone (VInt 6)
           VNone None ["node"; "fiber"] false (VInt 2) None (Some ["node"]) ∅
           plain_config {[ "vertical" := VInt 2 ]} initial initial).
  - discriminate.
  - reflexivity.
  - vm_compute. reflexivity.
  - vm_compute. reflexivity.
Defined.

(** ** [render]: layers of the settings *)

(** C1: the code departs from the layering it documents (lines 155 to 157,
    [defaults < file configs < kwds]).  A model whose embedded configuration
    sets [artist_config.vertical] to 3, rendered without any override and
    with the parameter [vertical] left at its default 2, ends up with 2,
    whereas layering defaults, embedded configuration and overrides gives
    3: line 191 writes the parameter into the settings after the embedded
    configuration was merged, even when the caller did not pass it. *)
Lemma vertical_beats_embedded_config :
  let defaults : gmap string value :=
    {[ "artist_config" := VDict {[ "vertical" := VInt 2 ]} ]} in
  let embedded : gmap string value :=
    {[ "artist_config" := VDict {[ "vertical" := VInt 3 ]} ]} in
  build_config defaults (VDict {[ "RendererConfiguration" := VDict embedded ]})
               (VInt 2) ∅
  = inr {[ "artist_config" := VDict {[ "vertical" := VInt 2 ]} ]}
  ∧ layered defaults embedded ∅
    = {[ "artist_config" := VDict {[ "vertical" := VInt 3 ]} ]}.
Proof. cbv zeta. repeat split; vm_compute; reflexivity. Qed.

(** ** [render]: when the artist draws *)

Section trace_facts.
Context {A B : Type}.

Lemma quiet_ret (x : A) : quiet (ret x).
Proof. intros st. exists []. split; [by rewrite app_nil_r | apply not_elem_of_nil]. Qed.

Lemma quiet_raise (e : exn) : quiet (raise (A := A) e).
Proof. intros st. exists []. split; [by rewrite app_nil_r | apply not_elem_of_nil]. Qed.

Lemma quiet_lift (r : exn + A) : quiet (lift r).
Proof. intros st. exists []. split; [by rewrite app_nil_r | apply not_elem_of_nil]. Qed.

Lemma quiet_bind (m : M A) (k : A → M B) :
  quiet m → (∀ x, quiet (k x)) → quiet (bind m k).
Proof.
  intros Hm Hk st. unfold bind.
  destruct (Hm st) as (evs & Ht & Hn).
  destruct (m st) as [st1 [e|x]]; simpl in *.
  - by exists evs.
  - destruct (Hk x st1) as (evs' & Ht' & Hn').
    exists (evs ++ evs'). split.
    + by rewrite Ht', Ht, app_assoc.
    + rewrite elem_of_app. tauto.
Qed.

Lemma fails_quietly_bind (m : M A) (k : A → M B) :
  quiet m → (∀ x, fails_quietly (k x)) → fails_quietly (bind m k).
Proof.
  intros Hm Hk st. unfold bind.
  destruct (Hm st) as (evs & Ht & Hn).
  destruct (m st) as [st1 [e|x]]; simpl in *.
  - by exists e, evs.
  - destruct (Hk x st1) as (e & evs' & He & Ht' & Hn').
    exists e, (evs ++ evs'). split; [done|]. split.
    + by rewrite Ht', Ht, app_assoc.
    + rewrite elem_of_app. tauto.
Qed.

Lemma draws_last_bind draw (m : M A) (k : A → M artist) :
  quiet m → (∀ x, draws_last draw (k x)) → draws_last draw (bind m k).
Proof.
  intros Hm Hk st. unfold bind.
  destruct (Hm st) as (evs & Ht & Hn).
  destruct (m st) as [st1 [e|x]]; simpl in *.
  - exists evs. split; [done|]. by left.
  - destruct (Hk x st1) as (evs' & Ht' & Hlast).
    exists (evs ++ evs'). split; [by rewrite Ht', Ht, app_assoc|].
    assert (Hend : ends_with_draw evs' → ends_with_draw (evs ++ evs')).
    { intros (before & -> & Hb). exists (evs ++ before).
      split; [by rewrite app_assoc|]. rewrite elem_of_app. tauto. }
    destruct (snd (k x st1)) as [e|a].
    + destruct Hlast as [Hno|[Hd Ha]].
      * left. rewrite elem_of_app. tauto.
      * right. split; [by apply Hend | done].
    + destruct Hlast as [Hd Ha]. split; [by apply Hend | done].
Qed.

End trace_facts.

Lemma draws_last_raise draw (e : exn) : draws_last draw (raise e).
Proof.
  intros st. exists []. split; [by rewrite app_nil_r|].
  left. apply not_elem_of_nil.
Qed.

Lemma quiet_emit (e : event) : e ≠ EvDraw → quiet (emit e).
Proof.
  intros He st. exists [e]. split; [done|].
  rewrite list_elem_of_singleton. congruence.
Qed.

Lemma quiet_new_set : quiet new_set.
Proof.
  intros st. exists [EvNewSet (length (sets st))]. split; [done|].
  rewrite list_elem_of_singleton. discriminate.
Qed.

Lemma quiet_for_each {A S} (f : S → A → M S) (xs : list A) (s : S) :
  (∀ s x, quiet (f s x)) → quiet (for_each f xs s).
Proof.
  intros Hf. revert s. induction xs as [|x xs IH]; intros s; simpl.
  - apply quiet_ret.
  - apply quiet_bind; [apply Hf | apply IH].
Qed.

Lemma quiet_sketch_show_call config key what exclusive preserve :
  quiet (sketch_show_call config key what exclusive preserve).
Proof.
  unfold sketch_show_call.
  apply quiet_bind; [apply quiet_lift | intros section].
  apply quiet_bind; [apply quiet_emit; discriminate | intros _].
  apply quiet_bind; [apply quiet_lift | intros section'].
  intros st. exists []. rewrite app_nil_r.
  split; [|apply not_elem_of_nil].
  by destruct (sketch_show _ _ _ _ _) as [?|[??]].
Qed.

Ltac quiet_step :=
  first
    [ apply quiet_ret | apply quiet_raise | apply quiet_lift
    | apply quiet_new_set | apply quiet_sketch_show_call
    | apply quiet_emit; discriminate
    | apply quiet_for_each; intros ??
    | apply quiet_bind; [|intros ?]
    | match goal with
      | |- quiet (match ?x with _ => _ end) => destruct x
      end ].

Lemma quiet_directives show hide displaced reference config :
  quiet (directives show hide displaced reference config).
Proof.
  unfold directives, reference_block, displaced_block, hide_block, exclusive_each.
  repeat quiet_step.
Qed.

Lemma quiet_read_model_data read_model FrameModel sam_file :
  quiet (read_model_data read_model FrameModel sam_file).
Proof. unfold read_model_data. repeat quiet_step. Qed.

Lemma quiet_create_artist FrameArtist model config ndf canvas verbose :
  quiet (create_artist FrameArtist model config ndf canvas verbose).
Proof. unfold create_artist. repeat quiet_step. Qed.

(** The displacement state of [render_states], before the drawing. *)
Lemma quiet_state_step artist_add_state config (res_file : value) (a : artist) :
  quiet (match res_file with
         | VNone => let* _ := lift (subscript (VDict config) "displ") in ret a
         | _ => add_state artist_add_state config res_file a
         end).
Proof. unfold add_state. repeat quiet_step. Qed.

(** [artist.draw()] is the last thing [draw_and_return] does. *)
Lemma draws_last_draw artist_draw model (a : artist) :
  draws_last artist_draw (draw_and_return artist_draw model a).
Proof.
  assert (Hnone : ∀ st : state, ∃ evs,
            trace st = trace st ++ evs ∧ EvDraw ∉ evs).
  { intros st. exists []. split; [by rewrite app_nil_r | apply not_elem_of_nil]. }
  assert (Hone : ends_with_draw [EvDraw]).
  { exists []. split; [done | apply not_elem_of_nil]. }
  intros st. unfold draw_and_return, bind, lift, emit, ret, raise.
  destruct (contains model "Displacements") as [e|[]]; simpl.
  - destruct (Hnone st) as (evs & Ht & Hn). exists evs. split; [done|]. by left.
  - destruct (Hnone st) as (evs & Ht & Hn). exists evs. split; [done|]. by left.
  - destruct (artist_draw a) as [e|[]] eqn:Hdraw; simpl.
    + exists [EvDraw]. split; [done|]. right. split; [done|]. by exists a.
    + exists [EvDraw]. by split.
Qed.

Lemma draws_last_render Config read_model FrameModel FrameArtist
    artist_add_state artist_draw sam_file res_file ndf canvas show hide verbose
    vertical displaced reference opts :
  draws_last artist_draw
    (render Config read_model FrameModel FrameArtist artist_add_state
            artist_draw sam_file res_file ndf canvas show hide verbose
            vertical displaced reference opts).
Proof.
  unfold render.
  destruct sam_file; try apply draws_last_raise.
  all: apply draws_last_bind; [apply quiet_read_model_data | intros model_data].
  all: apply draws_last_bind; [apply quiet_lift | intros config].
  all: apply draws_last_bind; [apply quiet_directives | intros config'].
  all: apply draws_last_bind; [apply quiet_create_artist | intros a].
  all: unfold render_states.
  all: apply draws_last_bind; [apply quiet_state_step | intros a'].
  all: apply draws_last_draw.
Qed.

(** X1. Whatever its arguments, the state it starts from and what its
    collaborators do, [render] only adds to the trace of collaborator calls
    and asks the artist to draw at most once, as the last call it makes.
    It returns an artist exactly when [artist.draw()] was called and
    returned.  When an exception leaves [render], either [draw] was never
    called, or [draw] was the last call and the exception is one that
    [draw] raises. *)
Theorem render_draws_last Config read_model FrameModel FrameArtist
    artist_add_state artist_draw sam_file res_file ndf canvas show hide
    verbose vertical displaced reference opts (st : state) :
  ∃ evs,
    trace (fst (render Config read_model FrameModel FrameArtist
                       artist_add_state artist_draw sam_file res_file ndf
                       canvas show hide verbose vertical displaced reference
                       opts st))
    = trace st ++ evs
    ∧ match snd (render Config read_model FrameModel FrameArtist
                        artist_add_state artist_draw sam_file res_file ndf
                        canvas show hide verbose vertical displaced reference
                        opts st)
      with
      | inr a => ends_with_draw evs ∧ artist_draw a = inr tt
      | inl e =>
          EvDraw ∉ evs ∨ (ends_with_draw evs ∧ ∃ a, artist_draw a = inl e)
      end.
Proof. apply draws_last_render. Qed.

(** X2. A tuple as model source takes the branch that only holds [pass]:
    [model_data] is never bound, so the first use of it, right after the
    defaults are taken, raises a [NameError] (Python's [UnboundLocalError]):
    no model is read, no directive is applied and nothing is created or
    drawn, whatever the other arguments are. *)
Theorem render_tuple_source Config read_model FrameModel FrameArtist
    artist_add_state artist_draw (items : list value)
    res_file ndf canvas show hide verbose vertical displaced reference opts
    (st : state) :
  render Config read_model FrameModel FrameArtist artist_add_state artist_draw
         (VTuple items) res_file ndf canvas
         show hide verbose vertical displaced reference opts st
  = (st, inl (NameError "model_data")).
Proof. reflexivity. Qed.

Lemma fails_quietly_displaced artist_draw model (a : artist) :
  contains model "Displacements" = inr true →
  fails_quietly (draw_and_return artist_draw model a).
Proof.
  intros Hd st. exists (NameError "cases"), [].
  unfold draw_and_return. rewrite Hd.
  split; [done|]. split; [by rewrite app_nil_r | apply not_elem_of_nil].
Qed.

(** X3. A model whose data holds a [Displacements] entry is never rendered:
    [render] reaches [cases.extend(...)], a name nothing binds, so the call
    always ends in an exception and [draw] is never called, whatever the
    settings, the other arguments and the collaborators are. *)
Theorem render_displacements_never_returns Config read_model FrameModel
    FrameArtist artist_add_state artist_draw
    sam_file (model : value) res_file ndf canvas show hide verbose
    vertical displaced reference opts (st st0 : state) :
  read_model_data read_model FrameModel sam_file st = (st0, inr model) →
  contains model "Displacements" = inr true →
  ∃ e evs,
    snd (render Config read_model FrameModel FrameArtist artist_add_state
                artist_draw sam_file res_file ndf canvas
                show hide verbose vertical displaced reference opts st) = inl e
    ∧ trace (fst (render Config read_model FrameModel FrameArtist
                         artist_add_state artist_draw sam_file res_file ndf
                         canvas show hide verbose vertical displaced reference
                         opts st))
      = trace st ++ evs
    ∧ EvDraw ∉ evs.
Proof.
  intros Hread Hd.
  assert (Hrest : fails_quietly
            (let* config := lift (build_config Config model vertical opts) in
             let* config := directives show hide displaced reference config in
             let* a := create_artist FrameArtist model config ndf canvas
                         verbose in
             render_states artist_add_state artist_draw model config res_file
               a)).
  { apply fails_quietly_bind; [apply quiet_lift | intros config].
    apply fails_quietly_bind; [apply quiet_directives | intros config'].
    apply fails_quietly_bind; [apply quiet_create_artist | intros a].
    unfold render_states.
    apply fails_quietly_bind; [apply quiet_state_step | intros a'].
    by apply fails_quietly_displaced. }
  destruct (quiet_read_model_data read_model FrameModel sam_file st)
    as (evs0 & Ht0 & Hn0).
  rewrite Hread in Ht0. simpl in Ht0.
  destruct (Hrest st0) as (e & evs & He & Ht & Hn).
  assert (sam_file = VNone ∨ sam_file ≠ VNone) as [->|Hsome]
    by (destruct sam_file; [by left | by right..]).
  { exists (RenderError "Expected required argument <sam-file>"), [].
    split; [done|]. split; [by rewrite app_nil_r | apply not_elem_of_nil]. }
  rewrite !(render_read _ _ _ _ _ _ _ model _ _ _ _ _ _ _ _ _ _ st st0) by done.
  exists e, (evs0 ++ evs). split; [exact He|].
  split; [by rewrite Ht, Ht0, app_assoc | rewrite elem_of_app; tauto].
Qed.

Lemma render_displacements_never_returns_witness :
  ∃ e evs,
    snd (render plain_defaults no_reader no_reader willing willing_state willing
                (VDict {[ "Displacements" := VList [] ]}) VNone (VInt 6) VNone
                None None false (VInt 2) None None ∅ initial) = inl e
    ∧ trace (fst (render plain_defaults no_reader no_reader willing
                         willing_state willing
                         (VDict {[ "Displacements" := VList [] ]}) VNone (VInt 6)
                         VNone None None false (VInt 2) None None ∅ initial))
      = trace initial ++ evs
    ∧ EvDraw ∉ evs.
Proof.
  apply (render_displacements_never_returns plain_defaults no_reader no_reader
           willing willing_state willing
           (VDict {[ "Displacements" := VList [] ]})
           (VDict {[ "Displacements" := VList [] ]}) VNone (VInt 6) VNone
           None None false (VInt 2) None None ∅ initial initial).
  - reflexivity.
  - vm_compute. reflexivity.
Defined.

(** X4. [render] chooses the backend with [canvas or config[...]], so every
    falsy [canvas] argument (an empty string or list, [0], [False], an object
    whose truth value is false) behaves exactly as [None]: the backend named
    by the settings is used. *)
Theorem render_falsy_canvas_is_default Config read_model FrameModel
    FrameArtist artist_add_state artist_draw
    sam_file res_file ndf (canvas : value) show hide verbose vertical
    displaced reference opts :
  truthy canvas = false →
  render Config read_model FrameModel FrameArtist artist_add_state artist_draw
         sam_file res_file ndf canvas
         show hide verbose vertical displaced reference opts
  = render Config read_model FrameModel FrameArtist artist_add_state
           artist_draw sam_file res_file ndf VNone
           show hide verbose vertical displaced reference opts.
Proof. intros Hc. unfold render, create_artist. rewrite Hc. reflexivity. Qed.

Lemma render_falsy_canvas_is_default_witness :
  render plain_defaults no_reader no_reader willing willing_state willing
         (VDict ∅) VNone (VInt 6) (VList [])
         None None false (VInt 2) None None ∅
  = render plain_defaults no_reader no_reader willing willing_state willing
           (VDict ∅) VNone (VInt 6) VNone
           None None false (VInt 2) None None ∅.
Proof.
  apply (render_falsy_canvas_is_default plain_defaults no_reader no_reader
           willing willing_state willing
           (VDict ∅) VNone (VInt 6) (VList []) None None false (VInt 2)
           None None ∅).
  reflexivity.
Defined.

(** ** [render]: the [verbose] flag *)

Section print_facts.
Context {A B : Type}.

Lemma print_blind_ret (x : A) : print_blind (ret x).
Proof. by intros st st' H. Qed.

Lemma print_blind_raise (e : exn) : print_blind (raise (A := A) e).
Proof. by intros st st' H. Qed.

Lemma print_blind_lift (r : exn + A) : print_blind (lift r).
Proof. by intros st st' H. Qed.

Lemma print_blind_bind (m : M A) (k : A → M B) :
  print_blind m → (∀ x, print_blind (k x)) → print_blind (bind m k).
Proof.
  intros Hm Hk st st' H. unfold bind.
  destruct (Hm st st' H) as [Hst Hr].
  destruct (m st) as [st1 r1], (m st') as [st1' r1']; simpl in *. subst r1'.
  destruct r1 as [e|x]; [done|]. by apply Hk.
Qed.

Lemma agree_but_prints_bind (m : M A) (k k' : A → M B) :
  (∀ x, agree_but_prints (k x) (k' x)) →
  agree_but_prints (bind m k) (bind m k').
Proof.
  intros Hk st. unfold bind.
  destruct (m st) as [st1 [e|x]]; [by split | apply Hk].
Qed.

Lemma agree_but_prints_then (m m' : M A) (k : A → M B) :
  agree_but_prints m m' → (∀ x, print_blind (k x)) →
  agree_but_prints (bind m k) (bind m' k).
Proof.
  intros Hm Hk st. unfold bind.
  destruct (Hm st) as [Hst Hr].
  destruct (m st) as [st1 r1], (m' st) as [st1' r1']; simpl in *. subst r1'.
  destruct r1 as [e|x]; [done|]. by apply Hk.
Qed.

End print_facts.

Lemma print_blind_emit (e : event) : print_blind (emit e).
Proof.
  intros st st' [Ht Hs]. split; [|done]. split; [|done]. simpl.
  unfold unprinted in *. by rewrite !List.filter_app, Ht.
Qed.

Lemma same_but_prints_print (st : state) (v : value) :
  same_but_prints {| trace := trace st ++ [EvPrint v]; sets := sets st |} st.
Proof.
  split; [|done]. simpl. unfold unprinted.
  rewrite List.filter_app. simpl. by rewrite app_nil_r.
Qed.

Ltac print_blind_step :=
  first
    [ apply print_blind_ret | apply print_blind_raise | apply print_blind_lift
    | apply print_blind_emit
    | apply print_blind_bind; [|intros ?]
    | match goal with
      | |- print_blind (match ?x with _ => _ end) => destruct x
      end ].

(** The two forms of the step [if verbose: pprint.pp(config["artist_config"])],
    each followed by the next read of the same section. *)
Lemma verbose_step_agree {B} (config : gmap string value) (k : value → M B) :
  (∀ section, print_blind (k section)) →
  agree_but_prints
    (let* _ := (let* section := lift (subscript (VDict config) "artist_config") in
                emit (EvPrint section)) in
     let* a_config := lift (subscript (VDict config) "artist_config") in
     k a_config)
    (let* _ := ret tt in
     let* a_config := lift (subscript (VDict config) "artist_config") in
     k a_config).
Proof.
  intros Hk st. unfold bind, lift, emit, ret.
  destruct (subscript (VDict config) "artist_config") as [e|section]; [by split|].
  apply Hk, same_but_prints_print.
Qed.

(** X5. [verbose] changes nothing but what is printed: with and without it
    [render] returns the same artist or raises the same exception, leaves
    the same preserve sets, and makes the same calls to its collaborators
    once the [pprint] output is left out of the trace. *)
Theorem render_verbose_only_prints Config read_model FrameModel FrameArtist
    artist_add_state artist_draw
    sam_file res_file ndf canvas show hide vertical displaced reference opts
    (st : state) :
  snd (render Config read_model FrameModel FrameArtist artist_add_state
              artist_draw sam_file res_file ndf canvas
              show hide true vertical displaced reference opts st)
  = snd (render Config read_model FrameModel FrameArtist artist_add_state
                artist_draw sam_file res_file ndf canvas
                show hide false vertical displaced reference opts st)
  ∧ sets (fst (render Config read_model FrameModel FrameArtist
                      artist_add_state artist_draw sam_file res_file ndf canvas
                      show hide true vertical displaced reference opts st))
    = sets (fst (render Config read_model FrameModel FrameArtist
                        artist_add_state artist_draw sam_file res_file ndf
                        canvas show hide false vertical displaced reference
                        opts st))
  ∧ unprinted
      (trace (fst (render Config read_model FrameModel FrameArtist
                          artist_add_state artist_draw sam_file res_file ndf
                          canvas show hide true vertical displaced reference
                          opts st)))
    = unprinted
        (trace (fst (render Config read_model FrameModel FrameArtist
                            artist_add_state artist_draw sam_file res_file ndf
                            canvas show hide false vertical displaced reference
                            opts st))).
Proof.
  assert (agree_but_prints
            (render Config read_model FrameModel FrameArtist artist_add_state
                    artist_draw sam_file res_file ndf canvas
                    show hide true vertical displaced reference opts)
            (render Config read_model FrameModel FrameArtist artist_add_state
                    artist_draw sam_file res_file ndf canvas
                    show hide false vertical displaced reference opts))
    as Hagree.
  { unfold render.
    destruct sam_file; [by split|..].
    all: apply agree_but_prints_bind; intros model_data.
    all: apply agree_but_prints_bind; intros config.
    all: apply agree_but_prints_bind; intros config'.
    all: apply agree_but_prints_then;
      [|intros a; unfold render_states, add_state, draw_and_return;
        repeat print_blind_step].
    all: unfold create_artist.
    all: apply (verbose_step_agree config'); intros a_config.
    all: repeat print_blind_step. }
  destruct (Hagree st) as [[Ht Hs] Hr]. done.
Qed.

(** ** The directives and the rest of the settings *)

Section ensures_facts.
Context {A B : Type}.

Lemma ensures_ret (x : A) (P : A → Prop) : P x → ensures (ret x) P.
Proof. intros HP st y [= <-]. exact HP. Qed.

Lemma ensures_bind (m : M A) (k : A → M B) (P : A → Prop) (Q : B → Prop) :
  ensures m P → (∀ x, P x → ensures (k x) Q) → ensures (bind m k) Q.
Proof.
  intros Hm Hk st y. unfold bind.
  specialize (Hm st).
  destruct (m st) as [st1 [e|x]]; simpl in *; [discriminate|].
  apply (Hk x); by apply Hm.
Qed.

Lemma ensures_weaken (m : M A) (P Q : A → Prop) :
  ensures m P → (∀ x, P x → Q x) → ensures m Q.
Proof. intros Hm HPQ st x Hx. apply HPQ. by eapply Hm. Qed.

End ensures_facts.

Lemma same_outside_refl config : same_outside_artist config config.
Proof. by intros k _. Qed.

Lemma same_outside_trans c1 c2 c3 :
  same_outside_artist c1 c2 → same_outside_artist c2 c3 →
  same_outside_artist c1 c3.
Proof. intros H12 H23 k Hk. by rewrite H23, H12. Qed.

Lemma sketch_show_call_frame config key what exclusive preserve :
  ensures (sketch_show_call config key what exclusive preserve)
          (same_outside_artist config).
Proof.
  intros st config'. unfold sketch_show_call, bind, lift, emit.
  destruct (subscript (VDict config) "artist_config") as [?|section];
    [discriminate|]. simpl.
  destruct (as_mapping section) as [?|section1]; [discriminate|]. simpl.
  destruct (sketch_show section1 key what exclusive _) as [?|[section2 held]];
    [discriminate|]. simpl.
  intros [= <-] k Hk. by rewrite lookup_insert_ne.
Qed.

Lemma exclusive_each_frame sketch what preserve args config :
  ensures (exclusive_each sketch what preserve args config)
          (same_outside_artist config).
Proof.
  unfold exclusive_each. revert config.
  induction args as [|arg args IH]; intros config; simpl.
  - apply ensures_ret, same_outside_refl.
  - eapply ensures_bind; [apply sketch_show_call_frame|].
    intros config1 H1. eapply ensures_weaken; [apply IH|].
    intros config2 H2. by eapply same_outside_trans.
Qed.

Lemma directives_frame show hide displaced reference config :
  ensures (directives show hide displaced reference config)
          (same_outside_artist config).
Proof.
  unfold directives.
  eapply ensures_bind with (P := same_outside_artist config).
  { unfold reference_block.
    destruct (effective_reference show displaced reference) as [args|];
      [|apply ensures_ret, same_outside_refl].
    eapply ensures_bind with (P := fun _ => True); [done|]. intros preserve _.
    eapply ensures_bind; [apply sketch_show_call_frame|].
    intros config1 H1. eapply ensures_weaken; [apply exclusive_each_frame|].
    intros config2 H2. by eapply same_outside_trans. }
  intros config1 H1.
  eapply ensures_bind with (P := same_outside_artist config).
  { unfold displaced_block. destruct displaced as [args|];
      [|by apply ensures_ret].
    eapply ensures_bind with (P := fun _ => True); [done|]. intros preserve _.
    eapply ensures_weaken; [apply exclusive_each_frame|].
    intros config2 H2. by eapply same_outside_trans. }
  intros config2 H2.
  unfold hide_block. destruct hide as [args|]; [|by apply ensures_ret].
  eapply ensures_bind with (P := fun _ => True); [done|]. intros preserve _.
  eapply ensures_weaken; [apply exclusive_each_frame|].
  intros config3 H3. by eapply same_outside_trans.
Qed.

(** X6. The visibility directives of a call are applied to
    [config["artist_config"]] alone, the only section the resolver is ever
    handed: whatever the lists hold, when the directives complete every
    other entry of the settings (canvas and model sections, [scale],
    [mode_num], ...) is what it was before them. *)
Theorem directives_touch_only_artist_config show hide displaced reference
    (config config' : gmap string value) (st : state) (k : string) :
  snd (directives show hide displaced reference config st) = inr config' →
  k ≠ "artist_config" →
  config' !! k = config !! k.
Proof. intros Hrun Hk. by eapply directives_frame. Qed.

Lemma directives_touch_only_artist_config_witness :
  ∃ config',
    snd (directives None (Some ["fiber"]) None (Some ["node"])
                    plain_defaults initial) = inr config'
    ∧ config' !! "canvas_config" = plain_defaults !! "canvas_config".
Proof.
  eexists. split; [vm_compute; reflexivity|].
  apply (directives_touch_only_artist_config None (Some ["fiber"]) None
           (Some ["node"]) plain_defaults _ initial "canvas_config").
  - vm_compute. reflexivity.
  - discriminate.
Defined.

Lemma directives_run_section show hide displaced reference config section st :
  config !! "artist_config" = Some (VDict section) →
  ∃ config' section',
    snd (directives show hide displaced reference config st) = inr config'
    ∧ config' !! "artist_config" = Some (VDict section').
Proof.
  intros Hs. unfold directives.
  destruct (reference_block_run (effective_reference show displaced reference)
              config section st Hs) as (c1 & s1 & H1 & Hs1).
  unfold bind at 1. rewrite H1. cbv beta iota. unfold bind at 1.
  match goal with |- context [displaced_block displaced c1 ?st1] =>
    destruct (exclusive_block_run "displaced" Show displaced c1 s1 st1
                parses_under_displaced Hs1) as (c2 & s2 & H2 & Hs2)
  end.
  unfold displaced_block. rewrite H2. cbv beta iota.
  match goal with |- context [hide_block hide c2 ?st2] =>
    destruct (exclusive_block_run "reference" Hide hide c2 s2 st2
                parses_under_reference Hs2) as (c3 & s3 & H3 & Hs3)
  end.
  unfold hide_block. rewrite H3. simpl. eauto.
Qed.

(** X7. Every key [render] hands to the resolver is a sketch name, a colon
    and an entry of a list, so it always has a sketch component: on settings
    whose artist section is a dictionary the directives never raise, for any
    lists, and the artist section is still a dictionary afterwards. *)
Theorem directives_never_raise show hide displaced reference
    (config section : gmap string value) (st : state) :
  config !! "artist_config" = Some (VDict section) →
  ∃ config' section',
    snd (directives show hide displaced reference config st) = inr config'
    ∧ config' !! "artist_config" = Some (VDict section').
Proof. apply directives_run_section. Qed.

Lemma directives_never_raise_witness :
  ∃ config' section',
    snd (directives None (Some ["fiber"]) None (Some ["node"])
                    plain_defaults initial) = inr config'
    ∧ config' !! "artist_config" = Some (VDict section').
Proof.
  apply (directives_never_raise None (Some ["fiber"]) None (Some ["node"])
           plain_defaults ∅ initial).
  reflexivity.
Defined.

(** ** [render]: when the model is read from a file *)

Section read_facts.
Context {A B : Type}.

Lemma reads_ret (x : A) : reads (ret x) [].
Proof. intros st. exists []. by rewrite app_nil_r. Qed.

Lemma reads_raise (e : exn) : reads (raise (A := A) e) [].
Proof. intros st. exists []. by rewrite app_nil_r. Qed.

Lemma reads_lift (r : exn + A) : reads (lift r) [].
Proof. intros st. exists []. by rewrite app_nil_r. Qed.

Lemma reads_bind (m : M A) (k : A → M B) (l : list event) :
  reads m l → (∀ x, reads (k x) []) → reads (bind m k) l.
Proof.
  intros Hm Hk st. unfold bind.
  destruct (Hm st) as (evs & Ht & Hl).
  destruct (m st) as [st1 [e|x]]; simpl in *.
  - by exists evs.
  - destruct (Hk x st1) as (evs' & Ht' & Hl').
    exists (evs ++ evs'). split.
    + by rewrite Ht', Ht, app_assoc.
    + unfold model_reads in *. by rewrite List.filter_app, Hl, Hl', app_nil_r.
Qed.

End read_facts.

Lemma reads_emit (e : event) : is_read_model e = false → reads (emit e) [].
Proof.
  intros He st. exists [e]. split; [done|].
  unfold model_reads. simpl. by rewrite He.
Qed.

Lemma reads_new_set : reads new_set [].
Proof. intros st. by exists [EvNewSet (length (sets st))]. Qed.

Lemma reads_for_each {A S} (f : S → A → M S) (xs : list A) (s : S) :
  (∀ s x, reads (f s x) []) → reads (for_each f xs s) [].
Proof.
  intros Hf. revert s. induction xs as [|x xs IH]; intros s; simpl.
  - apply reads_ret.
  - apply reads_bind; [apply Hf | apply IH].
Qed.

Lemma reads_sketch_show_call config key what exclusive preserve :
  reads (sketch_show_call config key what exclusive preserve) [].
Proof.
  unfold sketch_show_call.
  apply reads_bind; [apply reads_lift | intros section].
  apply reads_bind; [by apply reads_emit | intros _].
  apply reads_bind; [apply reads_lift | intros section'].
  intros st. exists []. rewrite app_nil_r.
  split; [|done].
  by destruct (sketch_show _ _ _ _ _) as [?|[??]].
Qed.

Ltac reads_step :=
  first
    [ apply reads_ret | apply reads_raise | apply reads_lift
    | apply reads_new_set | apply reads_sketch_show_call
    | apply reads_emit; reflexivity
    | apply reads_for_each; intros ??
    | apply reads_bind; [|intros ?]
    | match goal with
      | |- reads (match ?x with _ => _ end) _ => destruct x
      end ].

(** The choice of the reader, [render] lines 165 to 183. *)
Lemma reads_read_model_data read_model FrameModel (sam_file : value) :
  reads (read_model_data read_model FrameModel sam_file)
        (if reads_file sam_file then [EvReadModel sam_file] else []).
Proof.
  assert (Hread : ∀ source,
            reads (do emit (EvReadModel source) then
                   lift (as_model (read_model source)))
                  [EvReadModel source]).
  { intros source st. by exists [EvReadModel source]. }
  unfold read_model_data, reads_file.
  destruct sam_file; try apply Hread.
  all: destruct (hasattr _ "asdict"); cbn [negb andb]; [apply reads_ret|].
  all: destruct (hasattr _ "read"); cbn [negb andb]; [apply Hread|].
  all: repeat reads_step.
Qed.

(** X16. [render] hands the model source to [veux.model.read_model] exactly
    once when the source is a string or a path, or an object with a [read]
    attribute and no [asdict], and never otherwise (a dictionary, an object
    with [asdict], a tuple, any other value): whatever the other arguments
    and whether the call returns or raises, the calls to the reader in the
    trace are this one call on the source itself, or none. *)
Theorem render_reads_model_once Config read_model FrameModel FrameArtist
    artist_add_state artist_draw
    sam_file res_file ndf canvas show hide verbose vertical displaced reference
    opts (st : state) :
  ∃ evs,
    trace (fst (render Config read_model FrameModel FrameArtist
                       artist_add_state artist_draw sam_file res_file ndf canvas
                       show hide verbose vertical displaced reference opts st))
    = trace st ++ evs
    ∧ model_reads evs
      = if reads_file sam_file then [EvReadModel sam_file] else [].
Proof.
  assert (reads (render Config read_model FrameModel FrameArtist
                        artist_add_state artist_draw sam_file res_file ndf canvas
                        show hide verbose vertical displaced reference opts)
                (if reads_file sam_file then [EvReadModel sam_file] else []))
    as Hreads; [|apply Hreads].
  unfold render.
  destruct sam_file; [apply reads_raise|..].
  all: apply reads_bind; [apply reads_read_model_data | intros model_data].
  all: unfold directives, reference_block, displaced_block, hide_block,
         exclusive_each, create_artist, render_states, add_state,
         draw_and_return.
  all: repeat reads_step.
Qed.

(** ** [render]: the run on well-formed settings *)

Lemma create_canvas_unknown (name : string) (config : value) :
  name ∉ backends →
  _create_canvas (VStr name) config
  = inl (ValueError ("Unknown canvas name " +:+ name)).
Proof.
  unfold backends. rewrite !not_elem_of_cons.
  intros (H1 & H2 & H3 & H4 & _).
  unfold _create_canvas. by rewrite !eqb_false_of_ne.
Qed.

(** The creation of the artist on settings that hold the sections it
    subscripts: the printing, then either the creation of the canvas fails,
    or the canvas is created and the artist is constructed on it. *)
Lemma create_artist_run FrameArtist (model : value)
    (config : gmap string value) ndf canvas (verbose : bool)
    a_config m_config c_config name (st : state) :
  config !! "artist_config" = Some a_config →
  config !! "model_config" = Some m_config →
  config !! "canvas_config" = Some c_config →
  (if truthy canvas then inr canvas else subscript c_config "type") = inr name →
  create_artist FrameArtist model config ndf canvas verbose st
  = match _create_canvas name c_config with
    | inl e =>
        ({| trace := trace st ++ (if verbose then [EvPrint a_config] else []);
            sets := sets st |},
         inl e)
    | inr cv =>
        ({| trace := trace st
                     ++ (if verbose then [EvPrint a_config] else [])
                     ++ [EvCreateCanvas cv;
                         EvCreateArtist model ndf a_config m_config cv];
            sets := sets st |},
         match FrameArtist (new_artist model ndf a_config m_config cv) with
         | inl e => inl e
         | inr _ => inr (new_artist model ndf a_config m_config cv)
         end)
    end.
Proof.
  intros Hsec Hmc Hcc Hname. unfold create_artist.
  rewrite (subscript_lookup config "artist_config" a_config Hsec).
  rewrite (subscript_lookup config "model_config" m_config Hmc).
  rewrite (subscript_lookup config "canvas_config" c_config Hcc).
  assert (Hsel : (if truthy canvas then ret canvas
                  else let* c := lift (inr c_config) in lift (subscript c "type"))
                 = lift (inr name)).
  { destruct (truthy canvas).
    - by injection Hname as <-.
    - rewrite bind_lift_inr. by rewrite Hname. }
  rewrite Hsel. clear Hsel.
  destruct verbose; unfold bind, lift, emit, ret; cbn [trace sets].
  all: destruct (_create_canvas name c_config) as [e|cv].
  all: try destruct (FrameArtist _) as [e|[]].
  all: rewrite ?app_nil_r, <- ?app_assoc; try reflexivity.
  all: by destruct st.
Qed.

(** X8. For a call without results file, on a model that is read and holds
    no [Displacements], whose settings after the directives hold an artist
    section, a model section, a canvas section with a backend that
    [_create_canvas] builds, and a [displ] entry, and whose artist is
    constructed and drawn without an exception: [render] returns the artist
    built from the model, [ndf], the artist section that the directives
    returned, the model section and the created canvas.  After the
    directives it prints that section if [verbose], creates the canvas,
    creates the artist and draws, in this order; [add_state] is not
    called. *)
Theorem render_returns_artist Config read_model FrameModel FrameArtist
    artist_add_state artist_draw sam_file (model : value) ndf canvas show hide
    (verbose : bool) vertical displaced reference opts
    (config config' : gmap string value) a_config m_config c_config name cv
    displ (st st0 st1 : state) :
  sam_file ≠ VNone →
  read_model_data read_model FrameModel sam_file st = (st0, inr model) →
  contains model "Displacements" = inr false →
  build_config Config model vertical opts = inr config →
  directives show hide displaced reference config st0 = (st1, inr config') →
  config' !! "artist_config" = Some a_config →
  config' !! "model_config" = Some m_config →
  config' !! "canvas_config" = Some c_config →
  config' !! "displ" = Some displ →
  (if truthy canvas then inr canvas else subscript c_config "type") = inr name →
  _create_canvas name c_config = inr cv →
  FrameArtist (new_artist model ndf a_config m_config cv) = inr tt →
  artist_draw (new_artist model ndf a_config m_config cv) = inr tt →
  render Config read_model FrameModel FrameArtist artist_add_state artist_draw
         sam_file VNone ndf canvas show hide verbose vertical displaced
         reference opts st
  = ({| trace := trace st1
                 ++ (if verbose then [EvPrint a_config] else [])
                 ++ [EvCreateCanvas cv;
                     EvCreateArtist model ndf a_config m_config cv;
                     EvDraw];
        sets := sets st1 |},
     inr (new_artist model ndf a_config m_config cv)).
Proof.
  intros Hsome Hread Hnone Hbuild Hrun Hsec Hmc Hcc Hdispl Hname Hcv Hinit
    Hdraw.
  rewrite (render_run _ _ _ _ _ _ _ model _ _ _ _ _ _ _ _ _ _ config st st0)
    by done.
  unfold bind at 1. rewrite Hrun. cbv beta iota.
  unfold bind at 1.
  rewrite (create_artist_run _ _ _ _ _ _ a_config m_config c_config name)
    by done.
  rewrite Hcv, Hinit. cbv beta iota.
  unfold render_states, draw_and_return.
  rewrite (subscript_lookup config' "displ" displ Hdispl).
  unfold bind, lift, emit, ret. cbv beta iota.
  rewrite Hnone. cbv beta iota. rewrite Hdraw. cbn [trace sets].
  by rewrite <- !app_assoc.
Qed.

Lemma render_returns_artist_witness :
  let section : gmap string value :=
    {[ "vertical" := VInt 2; "reference" := VBool false;
       "reference:node" := VBool true ]} in
  let cv := GltfLibCanvas (VDict {[ "type" := VStr "gltf" ]}) in
  render plain_defaults no_reader no_reader willing willing_state willing
         (VDict ∅) VNone (VInt 6) VNone None None true (VInt 2) None
         (Some ["node"]) ∅ initial
  = ({| trace := trace (fst (directives None None None (Some ["node"])
                               plain_config initial))
                 ++ [EvPrint (VDict section)]
                 ++ [EvCreateCanvas cv;
                     EvCreateArtist (VDict ∅) (VInt 6) (VDict section)
                       (VDict ∅) cv;
                     EvDraw];
        sets := sets (fst (directives None None None (Some ["node"])
                             plain_config initial)) |},
     inr (new_artist (VDict ∅) (VInt 6) (VDict section) (VDict ∅) cv)).
Proof.
  intros section cv.
  apply (render_returns_artist plain_defaults no_reader no_reader willing
           willing_state willing (VDict ∅) (VDict ∅) (VInt 6) VNone None None
           true (VInt 2) None (Some ["node"]) ∅ plain_config
           (<["artist_config" := VDict section]> plain_defaults)
           (VDict section) (VDict ∅) (VDict {[ "type" := VStr "gltf" ]})
           (VStr "gltf") cv VNone initial initial
           (fst (directives None None None (Some ["node"]) plain_config
                   initial))).
  - discriminate.
  - reflexivity.
  - vm_compute. reflexivity.
  - vm_compute. reflexivity.
  - vm_compute. reflexivity.
  - vm_compute. reflexivity.
  - vm_compute. reflexivity.
  - vm_compute. reflexivity.
  - vm_compute. reflexivity.
  - vm_compute. reflexivity.
  - reflexivity.
  - reflexivity.
  - reflexivity.
Defined.

(** X9. The same call with a results file, on settings that also hold
    [scale], [mode_num] and a [state_config] dictionary without the keys
    [scale] and [only], and with an artist that takes the state without an
    exception: between the creation of the artist and the drawing, [render]
    calls [add_state] once, on the results file, with [scale] and [only]
    read from the entries [scale] and [mode_num] and the entries of
    [state_config] as further keywords, and it returns the artist with that
    state added. *)
Theorem render_adds_state Config read_model FrameModel FrameArtist
    artist_add_state artist_draw sam_file (model : value) res_file ndf canvas
    show hide (verbose : bool) vertical displaced reference opts
    (config config' : gmap string value) a_config m_config c_config name cv
    scale only (kwds : gmap string value) (st st0 st1 : state) :
  let a := new_artist model ndf a_config m_config cv in
  let c := {| state_source := res_file; state_scale := scale;
              state_only := only; state_kwds := kwds |} in
  sam_file ≠ VNone →
  read_model_data read_model FrameModel sam_file st = (st0, inr model) →
  res_file ≠ VNone →
  contains model "Displacements" = inr false →
  build_config Config model vertical opts = inr config →
  directives show hide displaced reference config st0 = (st1, inr config') →
  config' !! "artist_config" = Some a_config →
  config' !! "model_config" = Some m_config →
  config' !! "canvas_config" = Some c_config →
  config' !! "scale" = Some scale →
  config' !! "mode_num" = Some only →
  config' !! "state_config" = Some (VDict kwds) →
  kwds !! "scale" = None →
  kwds !! "only" = None →
  (if truthy canvas then inr canvas else subscript c_config "type") = inr name →
  _create_canvas name c_config = inr cv →
  FrameArtist a = inr tt →
  artist_add_state a c = inr tt →
  artist_draw (with_state a c) = inr tt →
  render Config read_model FrameModel FrameArtist artist_add_state artist_draw
         sam_file res_file ndf canvas show hide verbose vertical displaced
         reference opts st
  = ({| trace := trace st1
                 ++ (if verbose then [EvPrint a_config] else [])
                 ++ [EvCreateCanvas cv;
                     EvCreateArtist model ndf a_config m_config cv;
                     EvAddState res_file scale only kwds;
                     EvDraw];
        sets := sets st1 |},
     inr (with_state a c)).
Proof.
  intros a c Hsome Hread Hres Hnone Hbuild Hrun Hsec Hmc Hcc Hscale Honly Hkw
    Hks Hko Hname Hcv Hinit Hadd Hdraw.
  rewrite (render_run _ _ _ _ _ _ _ model _ _ _ _ _ _ _ _ _ _ config st st0)
    by done.
  unfold bind at 1. rewrite Hrun. cbv beta iota.
  unfold bind at 1.
  rewrite (create_artist_run _ _ _ _ _ _ a_config m_config c_config name)
    by done.
  rewrite Hcv. fold a. rewrite Hinit. cbv beta iota.
  unfold render_states.
  assert ((match res_file with
           | VNone => let* _ := lift (subscript (VDict config') "displ") in ret a
           | _ => add_state artist_add_state config' res_file a
           end)
          = (do emit (EvAddState res_file scale only kwds) then
             ret (with_state a c))) as ->.
  { transitivity (add_state artist_add_state config' res_file a);
      [by destruct res_file|].
    unfold add_state.
    rewrite (subscript_lookup config' "scale" scale Hscale).
    rewrite (subscript_lookup config' "mode_num" only Honly).
    rewrite (subscript_lookup config' "state_config" (VDict kwds) Hkw).
    rewrite !bind_lift_inr. simpl as_mapping. rewrite bind_lift_inr.
    rewrite Hks, Hko. simpl. fold c. by rewrite Hadd. }
  unfold draw_and_return, bind, lift, emit, ret. cbv beta iota.
  rewrite Hnone. cbv beta iota. rewrite Hdraw. cbn [trace sets].
  by rewrite <- !app_assoc.
Qed.

Lemma render_adds_state_witness :
  let section : gmap string value := {[ "vertical" := VInt 2 ]} in
  let cv := GltfLibCanvas (VDict {[ "type" := VStr "gltf" ]}) in
  let a := new_artist (VDict ∅) (VInt 6) (VDict section) (VDict ∅) cv in
  let c := {| state_source := VStr "results.json"; state_scale := VInt 1;
              state_only := VNone; state_kwds := ∅ |} in
  render state_defaults no_reader no_reader willing willing_state willing
         (VDict ∅) (VStr "results.json") (VInt 6) VNone None None false
         (VInt 2) None None ∅ initial
  = ({| trace := trace initial
                 ++ []
                 ++ [EvCreateCanvas cv;
                     EvCreateArtist (VDict ∅) (VInt 6) (VDict section)
                       (VDict ∅) cv;
                     EvAddState (VStr "results.json") (VInt 1) VNone ∅;
                     EvDraw];
        sets := sets initial |},
     inr (with_state a c)).
Proof.
  intros section cv a c.
  apply (render_adds_state state_defaults no_reader no_reader willing
           willing_state willing (VDict ∅) (VDict ∅) (VStr "results.json")
           (VInt 6) VNone None None false (VInt 2) None None ∅ state_config
           state_config (VDict section) (VDict ∅)
           (VDict {[ "type" := VStr "gltf" ]}) (VStr "gltf") cv (VInt 1) VNone
           ∅ initial initial initial).
  - discriminate.
  - reflexivity.
  - discriminate.
  - vm_compute. reflexivity.
  - vm_compute. reflexivity.
  - reflexivity.
  - vm_compute. reflexivity.
  - vm_compute. reflexivity.
  - vm_compute. reflexivity.
  - vm_compute. reflexivity.
  - vm_compute. reflexivity.
  - vm_compute. reflexivity.
  - reflexivity.
  - reflexivity.
  - vm_compute. reflexivity.
  - reflexivity.
  - reflexivity.
  - reflexivity.
  - reflexivity.
Defined.

(** X10. When the backend is a string that names no registered backend,
    given as [canvas] or taken from [canvas_config.type] of the settings,
    [render] raises the [ValueError] of [_create_canvas] after the
    directives (and the printing) and before a canvas or an artist is
    created: nothing is added to the trace after the directives but the
    printed section. *)
Theorem render_unknown_canvas_builds_nothing Config read_model FrameModel
    FrameArtist artist_add_state artist_draw
    sam_file (model : value) res_file ndf canvas show hide verbose
    vertical displaced reference opts config section m_config c_config
    (name : string) (st st0 : state) :
  sam_file ≠ VNone →
  read_model_data read_model FrameModel sam_file st = (st0, inr model) →
  build_config Config model vertical opts = inr config →
  config !! "artist_config" = Some (VDict section) →
  config !! "model_config" = Some m_config →
  config !! "canvas_config" = Some c_config →
  (if truthy canvas then inr canvas else subscript c_config "type")
  = inr (VStr name) →
  name ∉ backends →
  ∃ section',
    let st1 := fst (directives show hide displaced reference config st0) in
    render Config read_model FrameModel FrameArtist artist_add_state
           artist_draw sam_file res_file ndf canvas
           show hide verbose vertical displaced reference opts st
    = ({| trace := trace st1
                   ++ (if verbose then [EvPrint (VDict section')] else []);
          sets := sets st1 |},
       inl (ValueError ("Unknown canvas name " +:+ name))).
Proof.
  intros Hsome Hread Hbuild Hsec Hmc Hcc Hname Hunknown.
  destruct (directives_run_section show hide displaced reference config section
              st0 Hsec) as (config' & section' & Hrun & Hsec').
  pose proof (directives_frame show hide displaced reference config st0 config'
                Hrun) as Hframe.
  exists section'. cbv zeta.
  rewrite (render_run _ _ _ _ _ _ _ model _ _ _ _ _ _ _ _ _ _ config st st0)
    by done.
  unfold bind at 1.
  destruct (directives show hide displaced reference config st0)
    as [st1 r] eqn:Hd.
  simpl in Hrun. subst r. cbv beta iota. unfold bind at 1.
  rewrite (create_artist_run _ _ _ _ _ _ (VDict section') m_config c_config
             (VStr name));
    [|done|by rewrite Hframe|by rewrite Hframe|done].
  by rewrite (create_canvas_unknown name c_config Hunknown).
Qed.

Lemma render_unknown_canvas_builds_nothing_witness :
  ∃ section' : gmap string value,
    let st1 := fst (directives None None None None plain_config initial) in
    render plain_defaults no_reader no_reader willing willing_state willing
           (VDict ∅) VNone (VInt 6) (VStr "foo")
           None None false (VInt 2) None None ∅ initial
    = ({| trace := trace st1
                   ++ (if false then [EvPrint (VDict section')] else []);
          sets := sets st1 |},
       inl (ValueError ("Unknown canvas name " +:+ "foo"))).
Proof.
  apply (render_unknown_canvas_builds_nothing plain_defaults no_reader no_reader
           willing willing_state willing
           (VDict ∅) (VDict ∅) VNone (VInt 6) (VStr "foo") None None false
           (VInt 2) None None ∅ plain_config {[ "vertical" := VInt 2 ]} (VDict ∅)
           (VDict {[ "type" := VStr "gltf" ]}) "foo" initial initial).
  - discriminate.
  - reflexivity.
  - vm_compute. reflexivity.
  - vm_compute. reflexivity.
  - vm_compute. reflexivity.
  - vm_compute. reflexivity.
  - reflexivity.
  - unfold backends. rewrite !not_elem_of_cons.
    repeat split; try discriminate. apply not_elem_of_nil.
Defined.

(** ** The flags the directives leave behind *)

Section flag_facts.
Implicit Types (config section : gmap string value) (st : state).
Implicit Types (base : list (gset string)) (held : gset string).

Lemma sketch_show_call_exclusive_keeps config section key what vk st base held :
  config !! "artist_config" = Some (VDict section) →
  parse_key key = Some vk →
  sets st = base ++ [held] →
  ∃ section',
    sketch_show_call config key what true (Some (length base)) st
    = ({| trace := trace st ++ [EvSketchShow {| call_key := key; call_what := what;
                                               call_exclusive := true;
                                               call_preserve := Some (length base) |}];
          sets := base ++ [held ∪ {[ key ]}] |},
       inr (<["artist_config" := VDict section']> config))
    ∧ section' !! key = Some (flag_value (flag_of_action what))
    ∧ ∀ k v, k ∈ held → section !! k = Some v → k ≠ key → section' !! k = Some v.
Proof.
  intros Hs Hk Hsets.
  destruct (sketch_show_exclusive section key what held vk Hk) as (section' & Hrun & L).
  exists section'. split; [|split].
  - unfold sketch_show_call, bind, lift, emit, subscript. rewrite Hs. simpl.
    rewrite Hsets, list_lookup_middle by done. simpl. rewrite Hrun.
    do 2 f_equal.
    rewrite insert_app_r_alt by done. by rewrite Nat.sub_diag.
  - rewrite (L key (flag_value (flag_of_action what))) by apply lookup_insert_eq.
    by rewrite exclude_self.
  - intros k v Hheld Hv Hne.
    rewrite (L k v) by (by rewrite lookup_insert_ne).
    by rewrite exclude_preserved.
Qed.

(** The loop of an exclusive block keeps the flag of every key it has handed
    to the resolver: a later call of the loop spares the keys of the preserve
    set, which holds them all. *)
Lemma exclusive_each_flags sketch what args :
  parses_under sketch →
  ∀ config section st base held,
    config !! "artist_config" = Some (VDict section) →
    sets st = base ++ [held] →
    (∀ k, k ∈ held → section !! k = Some (flag_value (flag_of_action what))) →
    ∃ config' section',
      snd (exclusive_each sketch what (length base) args config st) = inr config'
      ∧ config' !! "artist_config" = Some (VDict section')
      ∧ (∀ k, k ∈ held → section' !! k = Some (flag_value (flag_of_action what)))
      ∧ ∀ arg, arg ∈ args →
          section' !! (sketch +:+ ":" +:+ arg)
          = Some (flag_value (flag_of_action what)).
Proof.
  intros Hparse. induction args as [|arg args IH];
    intros config section st base held Hs Hsets Hheld.
  - exists config, section. repeat split; [done..|].
    intros arg Harg. by apply not_elem_of_nil in Harg.
  - destruct (sketch_show_call_exclusive_keeps config section _ what _ st base held
                Hs (Hparse arg) Hsets) as (section1 & Hcall & Hkey & Hkeep).
    edestruct (IH (<["artist_config" := VDict section1]> config) section1
                 {| trace := trace st ++ [exclusive_call sketch what (length base) arg];
                    sets := base ++ [held ∪ {[ sketch +:+ ":" +:+ arg ]}] |}
                 base (held ∪ {[ sketch +:+ ":" +:+ arg ]}))
      as (config' & section' & Hrest & Hs' & Hheld' & Hargs');
      [apply lookup_insert_eq | done | |].
    { intros k Hk. destruct (decide (k = sketch +:+ ":" +:+ arg)) as [->|Hne];
        [done|].
      apply elem_of_union in Hk as [Hk|Hk%elem_of_singleton]; [|done].
      apply Hkeep; [done | by apply Hheld | done]. }
    exists config', section'. split; [|split; [done|split]].
    + unfold exclusive_each in *. simpl. unfold bind at 1.
      unfold exclusive_call in *. by rewrite Hcall.
    + intros k Hk. apply Hheld', elem_of_union. by left.
    + intros arg' [->|Harg]%elem_of_cons; [|by apply Hargs'].
      apply Hheld', elem_of_union. right. by apply elem_of_singleton.
Qed.

Lemma exclusive_block_flags sk what args config section st :
  parses_under sk →
  config !! "artist_config" = Some (VDict section) →
  ∃ config' section',
    snd (bind new_set
              (fun preserve => exclusive_each sk what preserve args config) st)
    = inr config'
    ∧ config' !! "artist_config" = Some (VDict section')
    ∧ ∀ arg, arg ∈ args →
        section' !! (sk +:+ ":" +:+ arg) = Some (flag_value (flag_of_action what)).
Proof.
  intros Hparse Hs. unfold bind, new_set.
  match goal with |- context [exclusive_each _ _ _ _ _ ?st1] =>
    edestruct (exclusive_each_flags sk what args Hparse config section st1
                 _ ∅ Hs eq_refl)
      as (c & s & Hrun & Hsec & _ & Hflags)
  end.
  { intros k Hk. by apply not_elem_of_empty in Hk. }
  by exists c, s.
Qed.

Lemma reference_block_flags args config section st :
  config !! "artist_config" = Some (VDict section) →
  ∃ config' section',
    snd (reference_block (Some args) config st) = inr config'
    ∧ config' !! "artist_config" = Some (VDict section')
    ∧ ∀ arg, arg ∈ args →
        section' !! ("reference:" +:+ arg) = Some (VBool true).
Proof.
  intros Hs. unfold reference_block.
  unfold bind at 1. unfold new_set. unfold bind at 1.
  rewrite (sketch_show_call_plain config section "reference" Show
             {| sketch := "reference"; attribute := None |}) by done.
  match goal with |- context [exclusive_each _ _ _ _ ?c ?st1] =>
    edestruct (exclusive_each_flags "reference" Show args parses_under_reference
                 c (<["reference" := VBool true]> section) st1 (sets st) ∅)
      as (c1 & s1 & Hrun & Hsec & _ & Hflags)
  end.
  { apply lookup_insert_eq. }
  { done. }
  { intros k Hk. by apply not_elem_of_empty in Hk. }
  by exists c1, s1.
Qed.

Lemma same_outside_sketch_refl sk config : same_outside_sketch sk config config.
Proof. intros section Hs. by exists section. Qed.

Lemma same_outside_sketch_trans sk c1 c2 c3 :
  same_outside_sketch sk c1 c2 → same_outside_sketch sk c2 c3 →
  same_outside_sketch sk c1 c3.
Proof.
  intros H12 H23 s1 Hs1.
  destruct (H12 s1 Hs1) as (s2 & Hs2 & L2).
  destruct (H23 s2 Hs2) as (s3 & Hs3 & L3).
  exists s3. split; [done|]. intros k v Hk Hv. by apply L3, L2.
Qed.

Lemma exclude_outside sk key what preserve k v :
  outside sk k → exclude sk key what preserve k v = v.
Proof.
  intros Hk. unfold exclude, is_sibling.
  destruct (parse_key k) as [vk|] eqn:Hp.
  - rewrite (eqb_false_of_ne _ _ (Hk vk Hp)).
    by rewrite andb_false_r.
  - by rewrite andb_false_r.
Qed.

(** A call of the resolver under a key of the sketch [sk] leaves the entries
    of the other sketches as they are, exclusive or not. *)
Lemma sketch_show_call_outside sk config key what exclusive preserve :
  (∀ vk, parse_key key = Some vk → sketch vk = sk) →
  ensures (sketch_show_call config key what exclusive preserve)
          (same_outside_sketch sk config).
Proof.
  intros Hkey st config'. unfold sketch_show_call, bind, lift, emit.
  destruct (subscript (VDict config) "artist_config") as [?|section] eqn:Hsub;
    [discriminate|]. simpl.
  destruct (as_mapping section) as [?|section1] eqn:Hmap; [discriminate|]. simpl.
  unfold sketch_show.
  destruct (parse_key key) as [vk|] eqn:Hp; [|discriminate].
  assert (Hne : ∀ k, outside sk k → k ≠ key).
  { intros k Hk ->. by apply (Hk vk Hp), Hkey. }
  assert (Hsec : config !! "artist_config" = Some (VDict section1)).
  { unfold subscript in Hsub.
    destruct (config !! "artist_config") as [w|]; [|discriminate].
    injection Hsub as ->. destruct section; try discriminate.
    by injection Hmap as ->. }
  destruct exclusive; simpl; intros [= <-] s Hs;
    rewrite Hsec in Hs; injection Hs as <-;
    (eexists; split; [apply lookup_insert_eq|]); intros k v Hk Hv.
  - rewrite map_lookup_imap, lookup_insert_ne by (by apply not_eq_sym, Hne).
    rewrite Hv. simpl. f_equal.
    rewrite (Hkey vk eq_refl). by apply exclude_outside.
  - by rewrite lookup_insert_ne by (by apply not_eq_sym, Hne).
Qed.

Lemma exclusive_each_outside sk what preserve args config :
  parses_under sk →
  ensures (exclusive_each sk what preserve args config)
          (same_outside_sketch sk config).
Proof.
  intros Hparse. unfold exclusive_each. revert config.
  induction args as [|arg args IH]; intros config; simpl.
  - apply ensures_ret, same_outside_sketch_refl.
  - eapply ensures_bind.
    + apply (sketch_show_call_outside sk).
      intros vk. rewrite (Hparse arg). by intros [= <-].
    + intros config1 H1. eapply ensures_weaken; [apply IH|].
      intros config2 H2. by eapply same_outside_sketch_trans.
Qed.

Lemma exclusive_block_outside sk what block config :
  parses_under sk →
  ensures (match block with
           | Some args =>
               bind new_set
                    (fun preserve => exclusive_each sk what preserve args config)
           | None => ret config
           end)
          (same_outside_sketch sk config).
Proof.
  intros Hparse. destruct block as [args|].
  - eapply ensures_bind with (P := fun _ => True); [done|]. intros preserve _.
    by apply exclusive_each_outside.
  - apply ensures_ret, same_outside_sketch_refl.
Qed.

Lemma outside_reference_displaced arg : outside "reference" ("displaced:" +:+ arg).
Proof. intros vk [= <-]. discriminate. Qed.

Lemma outside_displaced_reference arg : outside "displaced" ("reference:" +:+ arg).
Proof. intros vk [= <-]. discriminate. Qed.

End flag_facts.

(** X11. Every entry of [hide] ends hidden: on settings whose artist section
    is a dictionary, whatever [show], [displaced] and [reference] hold, the
    directives return and the flag under [reference:<entry>] is off for every
    entry of the list.  The hide block runs last, and within it the preserve
    set spares the keys already hidden when a later entry is hidden
    exclusively; an entry also listed in [reference] ends hidden as well.
    The resolver is the one modelled from the specification. *)
Theorem hide_entries_end_hidden show (args : list string) displaced reference
    (config section : gmap string value) (st : state) :
  config !! "artist_config" = Some (VDict section) →
  ∃ config' section',
    snd (directives show (Some args) displaced reference config st) = inr config'
    ∧ config' !! "artist_config" = Some (VDict section')
    ∧ ∀ arg, arg ∈ args → get_flag section' ("reference:" +:+ arg) = Some Hidden.
Proof.
  intros Hs. unfold directives.
  destruct (reference_block_run (effective_reference show displaced reference)
              config section st Hs) as (c1 & s1 & H1 & Hs1).
  unfold bind at 1. rewrite H1. cbv beta iota. unfold bind at 1.
  match goal with |- context [displaced_block displaced c1 ?st1] =>
    destruct (exclusive_block_run "displaced" Show displaced c1 s1 st1
                parses_under_displaced Hs1) as (c2 & s2 & H2 & Hs2)
  end.
  unfold displaced_block. rewrite H2. cbv beta iota.
  unfold hide_block, bind, new_set.
  match goal with |- context [exclusive_each _ _ _ _ _ ?st2] =>
    edestruct (exclusive_each_flags "reference" Hide args parses_under_reference
                 c2 s2 st2 _ ∅ Hs2 eq_refl)
      as (c3 & s3 & H3 & Hs3 & _ & Hflags)
  end.
  { intros k Hk. by apply not_elem_of_empty in Hk. }
  exists c3, s3. split; [exact H3|]. split; [exact Hs3|].
  intros arg Harg. specialize (Hflags arg Harg).
  change ("reference" +:+ ":" +:+ arg) with ("reference:" +:+ arg) in Hflags.
  unfold get_flag. by rewrite Hflags.
Qed.

Lemma hide_entries_end_hidden_witness :
  ∃ config' section',
    snd (directives None (Some ["node"; "fiber"]) None (Some ["node"])
                    plain_defaults initial) = inr config'
    ∧ config' !! "artist_config" = Some (VDict section')
    ∧ ∀ arg, arg ∈ ["node"; "fiber"] →
        get_flag section' ("reference:" +:+ arg) = Some Hidden.
Proof.
  apply (hide_entries_end_hidden None ["node"; "fiber"] None (Some ["node"])
           plain_defaults ∅ initial).
  reflexivity.
Defined.

(** X12. Every entry of [displaced] ends shown: on settings whose artist
    section is a dictionary, whatever the other lists hold, the directives
    return and the flag under [displaced:<entry>] is on for every entry of
    the list.  The hide block that follows only writes keys of the
    [reference] sketch, so hiding an entry does not hide its displaced
    counterpart.  The resolver is the one modelled from the specification. *)
Theorem displaced_entries_end_shown show hide (args : list string) reference
    (config section : gmap string value) (st : state) :
  config !! "artist_config" = Some (VDict section) →
  ∃ config' section',
    snd (directives show hide (Some args) reference config st) = inr config'
    ∧ config' !! "artist_config" = Some (VDict section')
    ∧ ∀ arg, arg ∈ args → get_flag section' ("displaced:" +:+ arg) = Some Shown.
Proof.
  intros Hs. unfold directives.
  destruct (reference_block_run (effective_reference show (Some args) reference)
              config section st Hs) as (c1 & s1 & H1 & Hs1).
  unfold bind at 1. rewrite H1. cbv beta iota. unfold bind at 1.
  match goal with |- context [displaced_block (Some args) c1 ?st1] =>
    destruct (exclusive_block_run "displaced" Show (Some args) c1 s1 st1
                parses_under_displaced Hs1) as (c2 & s2 & H2 & _);
    destruct (exclusive_block_flags "displaced" Show args c1 s1 st1
                parses_under_displaced Hs1) as (c2' & s2' & H2' & Hs2 & Hflags)
  end.
  rewrite H2 in H2'. injection H2' as ->.
  unfold displaced_block. rewrite H2. cbv beta iota.
  match goal with |- context [hide_block hide c2' ?st2] =>
    destruct (exclusive_block_run "reference" Hide hide c2' s2' st2
                parses_under_reference Hs2) as (c3 & s3 & H3 & Hs3);
    pose proof (exclusive_block_outside "reference" Hide hide c2'
                  parses_under_reference st2 c3) as Hout
  end.
  rewrite H3 in Hout. destruct (Hout eq_refl s2' Hs2) as (s3' & Hs3' & L).
  unfold hide_block. rewrite H3.
  exists c3, s3'. split; [done|]. split; [done|].
  intros arg Harg. unfold get_flag.
  rewrite (L ("displaced:" +:+ arg) (VBool true));
    [done | apply outside_reference_displaced | by apply Hflags].
Qed.

Lemma displaced_entries_end_shown_witness :
  ∃ config' section',
    snd (directives None (Some ["node"]) (Some ["node"; "frame"]) None
                    plain_defaults initial) = inr config'
    ∧ config' !! "artist_config" = Some (VDict section')
    ∧ ∀ arg, arg ∈ ["node"; "frame"] →
        get_flag section' ("displaced:" +:+ arg) = Some Shown.
Proof.
  apply (displaced_entries_end_shown None (Some ["node"]) ["node"; "frame"] None
           plain_defaults ∅ initial).
  reflexivity.
Defined.

(** X13. Without a [hide] list, every entry of the reference list in effect
    ([reference], or [show] when [reference] and [displaced] are both absent)
    ends shown: the flag under [reference:<entry>] is on after the
    directives.  The displaced block that follows only writes keys of the
    [displaced] sketch.  The resolver is the one modelled from the
    specification. *)
Theorem reference_entries_end_shown show (args : list string) displaced reference
    (config section : gmap string value) (st : state) :
  effective_reference show displaced reference = Some args →
  config !! "artist_config" = Some (VDict section) →
  ∃ config' section',
    snd (directives show None displaced reference config st) = inr config'
    ∧ config' !! "artist_config" = Some (VDict section')
    ∧ ∀ arg, arg ∈ args → get_flag section' ("reference:" +:+ arg) = Some Shown.
Proof.
  intros Heff Hs. unfold directives. rewrite Heff.
  destruct (reference_block_run (Some args) config section st Hs)
    as (c1 & s1 & H1 & _).
  destruct (reference_block_flags args config section st Hs)
    as (c1' & s1' & H1' & Hs1 & Hflags).
  rewrite H1 in H1'. injection H1' as ->.
  unfold bind at 1. rewrite H1. cbv beta iota. unfold bind at 1.
  match goal with |- context [displaced_block displaced c1' ?st1] =>
    destruct (exclusive_block_run "displaced" Show displaced c1' s1' st1
                parses_under_displaced Hs1) as (c2 & s2 & H2 & Hs2);
    pose proof (exclusive_block_outside "displaced" Show displaced c1'
                  parses_under_displaced st1 c2) as Hout
  end.
  rewrite H2 in Hout. destruct (Hout eq_refl s1' Hs1) as (s2' & Hs2' & L).
  unfold displaced_block, hide_block. rewrite H2. simpl.
  exists c2, s2'. split; [done|]. split; [done|].
  intros arg Harg. unfold get_flag.
  rewrite (L ("reference:" +:+ arg) (VBool true));
    [done | apply outside_displaced_reference | by apply Hflags].
Qed.

Lemma reference_entries_end_shown_witness :
  ∃ config' section',
    snd (directives (Some ["node"; "frame"]) None None None
                    plain_defaults initial) = inr config'
    ∧ config' !! "artist_config" = Some (VDict section')
    ∧ ∀ arg, arg ∈ ["node"; "frame"] →
        get_flag section' ("reference:" +:+ arg) = Some Shown.
Proof.
  apply (reference_entries_end_shown (Some ["node"; "frame"]) ["node"; "frame"]
           None None plain_defaults ∅ initial).
  - reflexivity.
  - reflexivity.
Defined.

(** ** [serve] *)

(** X14. [serve] looks for the canvas one level down only: an artist whose
    [canvas] attribute holds a canvas (an object without a [canvas] attribute
    of its own) is served exactly as that canvas is, for every viewer and
    port. *)
Theorem serve_artist_is_serve_canvas (thing viewer port : value) :
  hasattr thing "canvas" = true →
  hasattr (method thing "canvas") "canvas" = false →
  serve thing viewer port = serve (method thing "canvas") viewer port.
Proof.
  intros Hthing Hcanvas. unfold serve, serve_target.
  by rewrite Hthing, Hcanvas.
Qed.

Lemma serve_artist_is_serve_canvas_witness :
  serve (VObj {[ "canvas" := VObj {[ "to_glb" := VStr "scene" ]} true ]} true)
        (VStr "mv") VNone
  = serve (method (VObj {[ "canvas" := VObj {[ "to_glb" := VStr "scene" ]} true ]}
                        true) "canvas")
          (VStr "mv") VNone.
Proof.
  apply (serve_artist_is_serve_canvas
           (VObj {[ "canvas" := VObj {[ "to_glb" := VStr "scene" ]} true ]} true)
           (VStr "mv") VNone).
  - vm_compute. reflexivity.
  - vm_compute. reflexivity.
Defined.

(** X15. The [viewer] argument is only passed to the glTF server: for a
    canvas without [to_glb] (the HTML server, the blocking [show], or
    the error) the outcome of [serve] does not depend on [viewer]. *)
Theorem serve_viewer_only_for_glb (thing viewer viewer' port : value) :
  hasattr (serve_target thing) "to_glb" = false →
  serve thing viewer port = serve thing viewer' port.
Proof. intros Hglb. unfold serve. by rewrite Hglb. Qed.

Lemma serve_viewer_only_for_glb_witness :
  serve (VObj {[ "to_html" := VStr "<html/>" ]} true) (VStr "mv") VNone
  = serve (VObj {[ "to_html" := VStr "<html/>" ]} true) (VStr "babylon") VNone.
Proof.
  apply (serve_viewer_only_for_glb (VObj {[ "to_html" := VStr "<html/>" ]} true)
           (VStr "mv") (VStr "babylon") VNone).
  vm_compute. reflexivity.
Defined.
